(** * Ground-plane importer: geometry parsers, validator and loader

    A shallow embedding of [scripts/gnd_importer] (geometry_parser.py,
    gnd_validator.py, gnd_loader.py) and the properties of its
    specification.

    Numbers.  Python floats are modelled as exact rationals ([Q]): every
    finite double is a rational, and comparison, [min], [max], [+], [-],
    [*], [/] and [round] are the exact operations.  IEEE rounding of the
    arithmetic results is outside the model.  Numeric equality of floats
    ([==], also the one used for dict keys) is [Qeq], decided by
    [Qeq_bool].

    Exceptions.  Fallible code lives in the [result] monad; an exception
    carries its class and the text [str(e)] returns. *)

From Stdlib Require Import QArith Qround Qabs ZArith List String Ascii Bool Lia Lqa Arith.
From Stdlib Require Import DecimalString.
Import ListNotations.

Open Scope string_scope.
Open Scope list_scope.
Open Scope Q_scope.

(* ===================================================================== *)
(** ** Python runtime: exceptions, numbers, strings                      *)
(* ===================================================================== *)

Inductive exn_class : Type :=
| IndexError
| ValueError
| NotImplementedError
| ImportError
| OSError
| Exception.

Record exn : Type := Raise { exn_type : exn_class; exn_str : string }.

Inductive result (A : Type) : Type :=
| Ok (a : A)
| Err (e : exn).

Arguments Ok {A} a.
Arguments Err {A} e.

Definition bind {A B : Type} (m : result A) (k : A -> result B) : result B :=
  match m with
  | Ok a => k a
  | Err e => Err e
  end.

Notation "x <- m ;; k" := (bind m (fun x => k))
  (at level 61, m at next level, right associativity).

Fixpoint mapM {A B : Type} (f : A -> result B) (l : list A) : result (list B) :=
  match l with
  | [] => Ok []
  | a :: l' => b <- f a ;; bs <- mapM f l' ;; Ok (b :: bs)
  end.

(** [v[i]] on a Python list. *)
Definition index {A : Type} (l : list A) (i : nat) : result A :=
  match nth_error l i with
  | Some a => Ok a
  | None => Err (Raise IndexError "list index out of range")
  end.

Definition Qlt_bool (a b : Q) : bool := negb (Qle_bool b a).

(** [min(l)] and [max(l)] on a non-empty list given as head and tail: the
    first smallest (largest) element, as Python returns it. *)
Definition py_min (x : Q) (xs : list Q) : Q :=
  fold_left (fun m y => if Qlt_bool y m then y else m) xs x.

Definition py_max (x : Q) (xs : list Q) : Q :=
  fold_left (fun m y => if Qlt_bool m y then y else m) xs x.

(** [round(q)] with one argument: the nearest integer, ties to even. *)
Definition py_round (q : Q) : Z :=
  let f := Qfloor q in
  let r := q - inject_Z f in
  if Qlt_bool r (1 # 2) then f
  else if Qlt_bool (1 # 2) r then (f + 1)%Z
  else if Z.even f then f else (f + 1)%Z.

Definition str_of_nat (n : nat) : string :=
  NilZero.string_of_uint (Nat.to_uint n).

Definition str_of_N (n : N) : string :=
  NilZero.string_of_uint (N.to_uint n).

(** [f"{q:.<d>f}"] for [d >= 1]: fixed-point notation with [d] digits after
    the point, the value rounded to the nearest, ties to even. *)
Definition format_f (d : nat) (q : Q) : string :=
  let scale := (10 ^ Z.of_nat d)%Z in
  let n := py_round (q * inject_Z scale) in
  let a := Z.abs n in
  let ip := Z.to_N (a / scale) in
  let fp := Z.to_N (a mod scale) in
  let digits := str_of_N fp in
  let frac :=
    (String.concat EmptyString (repeat "0" (d - String.length digits)) ++ digits)%string in
  ((if (n <? 0)%Z then "-" else EmptyString) ++ str_of_N ip ++ "." ++ frac)%string.

(** [sep.join(l)]. *)
Definition join (sep : string) (l : list string) : string :=
  String.concat sep l.

(* ===================================================================== *)
(** ** geometry_parser.py: the geometry container                        *)
(* ===================================================================== *)

Inductive meta_value : Type :=
| MStr (s : string)
| MInt (n : nat).

Record Geometry : Type := mkGeometry {
  vertices : list (list Q);
  faces : list (list nat);
  edges : list (list nat);
  metadata : list (string * meta_value)
}.

(** [Geometry()] *)
Definition Geometry_new : Geometry := mkGeometry [] [] [] [].

(* ===================================================================== *)
(** ** gnd_validator.py                                                   *)
(* ===================================================================== *)

(** A [GNDValidator] object: the geometry it was built for and its three
    list attributes.  The lists are mutable objects owned by the validator:
    every check appends to them in place. *)
Record GNDValidator : Type := mkValidator {
  geometry : Geometry;
  errors : list string;
  warnings : list string;
  suggestions : list string
}.

(** [GNDValidator(geometry)] *)
Definition GNDValidator_init (g : Geometry) : GNDValidator :=
  mkValidator g [] [] [].

Definition errors_append (self : GNDValidator) (m : string) : GNDValidator :=
  mkValidator (geometry self) (errors self ++ [m]) (warnings self)
    (suggestions self).

Definition warnings_append (self : GNDValidator) (m : string) : GNDValidator :=
  mkValidator (geometry self) (errors self) (warnings self ++ [m])
    (suggestions self).

Definition suggestions_append (self : GNDValidator) (m : string)
  : GNDValidator :=
  mkValidator (geometry self) (errors self) (warnings self)
    (suggestions self ++ [m]).

Definition msg_empty : string := "Geometry is empty (no vertices found)".

Definition msg_too_small (width height : Q) (antenna_size : nat) : string :=
  "Ground plane bounding box is too small (W: " ++ format_f 1 width
  ++ "mm, H: " ++ format_f 1 height ++ "mm). "
  ++ "Minimum required: " ++ str_of_nat antenna_size ++ "mm × "
  ++ str_of_nat antenna_size ++ "mm to fit the antenna. "
  ++ "Please redesign with larger dimensions.".

Definition msg_cannot_fit (width height : Q) (antenna_size : nat) : string :=
  "Ground plane cannot accommodate the " ++ str_of_nat antenna_size
  ++ "mm × " ++ str_of_nat antenna_size ++ "mm antenna. "
  ++ "Although the bounding box is " ++ format_f 1 width ++ "mm × "
  ++ format_f 1 height ++ "mm, "
  ++ "there is no continuous area large enough for the antenna. "
  ++ "Please redesign with a larger solid area (e.g., wider arms for plus/cross shapes).".

Definition msg_z_variation (z_variation : Q) : string :=
  "Geometry has significant Z-axis variation (" ++ format_f 2 z_variation
  ++ "mm). " ++ "Consider using 3D visualization mode.".

Definition msg_no_connectivity : string :=
  "No edges or faces defined in geometry".

Definition msg_open_vertices (n : nat) : string :=
  "Geometry has " ++ str_of_nat n ++ " open boundary vertices. "
  ++ "Consider closing the boundaries for better HFSS simulation.".

Definition msg_complex : string :=
  "Complex geometry detected. "
  ++ "Please verify no self-intersections exist in your CAD software.".

(** [_check_empty_geometry] *)
Definition _check_empty_geometry (self : GNDValidator) : GNDValidator :=
  match vertices (geometry self) with
  | [] => errors_append self msg_empty
  | _ :: _ => self
  end.

(** One edge's contribution to the ray casting of [_point_in_polygon]:
    [None] when the loop body [continue]s, otherwise whether the edge
    flips [inside]. *)
Definition edge_crossing (vs : list (list Q)) (px py : Q) (edge : list nat)
  : result (option bool) :=
  match edge with
  | start_idx :: end_idx :: _ =>
      if (List.length vs <=? start_idx)%nat || (List.length vs <=? end_idx)%nat
      then Ok None
      else
        v1 <- index vs start_idx ;;
        v2 <- index vs end_idx ;;
        x1 <- index v1 0%nat ;;
        y1 <- index v1 1%nat ;;
        x2 <- index v2 0%nat ;;
        y2 <- index v2 1%nat ;;
        if negb (Bool.eqb (Qlt_bool py y1) (Qlt_bool py y2))
        then
          let intersect_x := x1 + (x2 - x1) * (py - y1) / (y2 - y1) in
          Ok (Some (Qlt_bool px intersect_x))
        else Ok (Some false)
  | _ => Ok None
  end.

Fixpoint ray_cast (vs : list (list Q)) (px py : Q) (es : list (list nat))
  (inside : bool) : result bool :=
  match es with
  | [] => Ok inside
  | edge :: es' =>
      c <- edge_crossing vs px py edge ;;
      match c with
      | Some true => ray_cast vs px py es' (negb inside)
      | _ => ray_cast vs px py es' inside
      end
  end.

(** [_point_in_polygon] *)
Definition _point_in_polygon (self : GNDValidator) (px py : Q) : result bool :=
  match edges (geometry self) with
  | [] => Ok true
  | es => ray_cast (vertices (geometry self)) px py es false
  end.

(** [all(self._point_in_polygon(px, py) for px, py in test_points)]: the
    generator stops at the first point that is outside. *)
Fixpoint all_inside (self : GNDValidator) (pts : list (Q * Q)) : result bool :=
  match pts with
  | [] => Ok true
  | (px, py) :: pts' =>
      b <- _point_in_polygon self px py ;;
      if b then all_inside self pts' else Ok false
  end.

Definition test_points (x y half_antenna : Q) : list (Q * Q) :=
  [ (x, y);
    (x - half_antenna, y - half_antenna);
    (x + half_antenna, y - half_antenna);
    (x - half_antenna, y + half_antenna);
    (x + half_antenna, y + half_antenna) ].

Definition step : Q := 5.

(** The number of passes of [while x <= hi: ...; x += step] started at
    [lo], plus the last evaluation of the test: the loops below recurse on
    this count, and never use it up (see [scan_x_fuel], [scan_y_fuel]). *)
Definition loop_bound (lo hi : Q) : nat :=
  S (S (Z.to_nat (Qfloor ((hi - lo) / step)))).

(** The inner [while x <= max_x - half_antenna] loop of [_test_antenna_fit]
    at one [y]: [true] when the function returns [True] from inside it. *)
Fixpoint scan_x (fuel : nat) (self : GNDValidator) (half_antenna : Q)
  (x hi_x y : Q) : result bool :=
  match fuel with
  | O => Ok false
  | S fuel' =>
      if Qle_bool x hi_x then
        fit <- all_inside self (test_points x y half_antenna) ;;
        if fit then Ok true
        else scan_x fuel' self half_antenna (x + step) hi_x y
      else Ok false
  end.

(** The outer [while y <= max_y - half_antenna] loop. *)
Fixpoint scan_y (fuel : nat) (self : GNDValidator) (half_antenna : Q)
  (lo_x hi_x y hi_y : Q) : result bool :=
  match fuel with
  | O => Ok false
  | S fuel' =>
      if Qle_bool y hi_y then
        found <- scan_x (loop_bound lo_x hi_x) self half_antenna lo_x hi_x y ;;
        if found then Ok true
        else scan_y fuel' self half_antenna lo_x hi_x (y + step) hi_y
      else Ok false
  end.

(** [_test_antenna_fit] *)
Definition _test_antenna_fit (self : GNDValidator) (antenna_size : nat)
  (min_x max_x min_y max_y : Q) : result bool :=
  let half_antenna := inject_Z (Z.of_nat antenna_size) / 2 in
  let lo_y := min_y + half_antenna in
  let hi_y := max_y - half_antenna in
  let lo_x := min_x + half_antenna in
  let hi_x := max_x - half_antenna in
  scan_y (loop_bound lo_y hi_y) self half_antenna lo_x hi_x lo_y hi_y.

(** The bounding box [_check_minimum_size] computes from a non-empty
    vertex list: [(min_x, max_x, min_y, max_y)]. *)
Definition xy_extent (vs : list (list Q)) : result (Q * Q * Q * Q) :=
  x_coords <- mapM (fun v => index v 0%nat) vs ;;
  y_coords <- mapM (fun v => index v 1%nat) vs ;;
  match x_coords, y_coords with
  | x :: xs, y :: ys =>
      Ok (py_min x xs, py_max x xs, py_min y ys, py_max y ys)
  | _, _ => Err (Raise ValueError "min() arg is an empty sequence")
  end.

(** [_check_minimum_size] *)
Definition _check_minimum_size (self : GNDValidator) : result GNDValidator :=
  match vertices (geometry self) with
  | [] => Ok self
  | vs =>
      ext <- xy_extent vs ;;
      let '(min_x, max_x, min_y, max_y) := ext in
      let width := max_x - min_x in
      let height := max_y - min_y in
      let antenna_size := 25%nat in
      let size_q := inject_Z (Z.of_nat antenna_size) in
      if Qlt_bool width size_q || Qlt_bool height size_q then
        Ok (errors_append self (msg_too_small width height antenna_size))
      else
        match edges (geometry self) with
        | [] => Ok self
        | _ :: _ =>
            can_fit <- _test_antenna_fit self antenna_size
                         min_x max_x min_y max_y ;;
            if can_fit then Ok self
            else Ok (errors_append self
                       (msg_cannot_fit width height antenna_size))
        end
  end.

(** [v[2] if len(v) > 2 else 0] *)
Definition z_coord (v : list Q) : Q :=
  match v with
  | _ :: _ :: z :: _ => z
  | _ => 0
  end.

(** [_check_planar_geometry] *)
Definition _check_planar_geometry (self : GNDValidator) : GNDValidator :=
  match vertices (geometry self) with
  | [] => self
  | v :: vs =>
      let z := z_coord v in
      let zs := map z_coord vs in
      let z_variation := py_max z zs - py_min z zs in
      if Qlt_bool 5 z_variation
      then suggestions_append self (msg_z_variation z_variation)
      else self
  end.

(** [edge_count[vertex_idx] = edge_count.get(vertex_idx, 0) + 1] on a dict
    kept in insertion order. *)
Fixpoint count_incr (vertex_idx : nat) (edge_count : list (nat * nat))
  : list (nat * nat) :=
  match edge_count with
  | [] => [(vertex_idx, 1%nat)]
  | (k, c) :: rest =>
      if (k =? vertex_idx)%nat then (k, S c) :: rest
      else (k, c) :: count_incr vertex_idx rest
  end.

Definition build_edge_count (es : list (list nat)) : list (nat * nat) :=
  fold_left (fun edge_count edge =>
               fold_left (fun ec vertex_idx => count_incr vertex_idx ec)
                 edge edge_count)
    es [].

Definition open_vertices (es : list (list nat)) : list nat :=
  map fst (filter (fun kc => negb (Nat.even (snd kc))) (build_edge_count es)).

(** [_check_closed_boundaries] *)
Definition _check_closed_boundaries (self : GNDValidator) : GNDValidator :=
  match edges (geometry self) with
  | [] =>
      match faces (geometry self) with
      | [] => warnings_append self msg_no_connectivity
      | _ :: _ => self
      end
  | es =>
      let ov := open_vertices es in
      if (2 <? List.length ov)%nat
      then warnings_append self (msg_open_vertices (List.length ov))
      else self
  end.

(** [_check_self_intersections] *)
Definition _check_self_intersections (self : GNDValidator) : GNDValidator :=
  if (100 <? List.length (edges (geometry self)))%nat
  then suggestions_append self msg_complex
  else self.

(** [is_valid]: the checks in their order, then [len(self.errors) == 0].
    The second component is the validator after the call. *)
Definition is_valid (self : GNDValidator) : result (bool * GNDValidator) :=
  let self := _check_empty_geometry self in
  self <- _check_minimum_size self ;;
  let self := _check_planar_geometry self in
  let self := _check_closed_boundaries self in
  let self := _check_self_intersections self in
  Ok ((List.length (errors self) =? 0)%nat, self).

(** The three list objects of a validator.  [get_report] puts the lists
    themselves in the dict it returns, not copies: the report's entries are
    references, read through the validator that owns the lists. *)
Inductive list_ref : Type :=
| ErrorsRef
| WarningsRef
| SuggestionsRef.

Definition deref (self : GNDValidator) (r : list_ref) : list string :=
  match r with
  | ErrorsRef => errors self
  | WarningsRef => warnings self
  | SuggestionsRef => suggestions self
  end.

Record Report : Type := mkReport {
  valid : bool;
  report_errors : list_ref;
  report_warnings : list_ref;
  report_suggestions : list_ref
}.

(** [get_report] *)
Definition get_report (self : GNDValidator) : result (Report * GNDValidator) :=
  r <- is_valid self ;;
  let '(v, self') := r in
  Ok (mkReport v ErrorsRef WarningsRef SuggestionsRef, self').

(** [get_errors], [get_warnings], [get_suggestions] *)
Definition get_errors (self : GNDValidator) : list string := errors self.
Definition get_warnings (self : GNDValidator) : list string := warnings self.
Definition get_suggestions (self : GNDValidator) : list string :=
  suggestions self.

(* ===================================================================== *)
(** ** geometry_parser.py: the parsers                                    *)
(* ===================================================================== *)

(** A Python dict used as [key -> index] map, in insertion order; [eqb] is
    the equality of its keys.  [dict_get] is both [key in d] and [d[key]]. *)
Fixpoint dict_get {K V : Type} (eqb : K -> K -> bool) (d : list (K * V))
  (key : K) : option V :=
  match d with
  | [] => None
  | (k, v) :: d' => if eqb k key then Some v else dict_get eqb d' key
  end.

(** *** DXF *)

(** What ezdxf hands to the parser: points with three coordinates, and the
    entities of the model space by [dxftype()]. *)
Record Vec3 : Type := mkVec3 { vx : Q; vy : Q; vz : Q }.

Inductive Entity : Type :=
| LINE (start end_ : Vec3)
| LWPOLYLINE (points : list (Q * Q)) (closed : bool)
| POLYLINE (pvertices : list Vec3) (is_closed : bool)
| FACE3D (vtx0 vtx1 vtx2 : Vec3)
| CIRCLE (center : Vec3) (radius : Q)
| OTHER (dxftype : string).

Record DxfDoc : Type := mkDxfDoc {
  layers : nat;               (* len(list(doc.layers)) *)
  modelspace : list Entity
}.

Definition epsilon : Q := 1 # 1000000.

(** [round(c / epsilon) * epsilon] *)
Definition snap (c : Q) : Q := inject_Z (py_round (c / epsilon)) * epsilon.

Definition Key : Type := (Q * Q * Q)%type.

Definition snap_key (x y z : Q) : Key := (snap x, snap y, snap z).

(** Equality of two keys: tuples of floats compare component by component. *)
Definition key_eqb (k1 k2 : Key) : bool :=
  let '(a1, b1, c1) := k1 in
  let '(a2, b2, c2) := k2 in
  Qeq_bool a1 a2 && Qeq_bool b1 b2 && Qeq_bool c1 c2.

(** The local state of [_parse_dxf]: the geometry under construction and
    [vertex_map]. *)
Record DxfState : Type := mkDxfState {
  dxf_vertices : list (list Q);
  dxf_faces : list (list nat);
  dxf_edges : list (list nat);
  vertex_map : list (Key * nat)
}.

Definition dxf_init : DxfState := mkDxfState [] [] [] [].

(** [add_vertex(x, y, z)] *)
Definition add_vertex (x y z : Q) (st : DxfState) : nat * DxfState :=
  let key := snap_key x y z in
  match dict_get key_eqb (vertex_map st) key with
  | Some idx => (idx, st)
  | None =>
      let idx := List.length (dxf_vertices st) in
      (idx,
       mkDxfState (dxf_vertices st ++ [[x; y; z]]) (dxf_faces st)
         (dxf_edges st) (vertex_map st ++ [(key, idx)]))
  end.

(** [[add_vertex(p[0], p[1], p[2]) for p in points]] *)
Fixpoint add_vertices (pts : list Vec3) (st : DxfState)
  : list nat * DxfState :=
  match pts with
  | [] => ([], st)
  | p :: pts' =>
      let '(i, st1) := add_vertex (vx p) (vy p) (vz p) st in
      let '(is_, st2) := add_vertices pts' st1 in
      (i :: is_, st2)
  end.

Definition edges_append (st : DxfState) (es : list (list nat)) : DxfState :=
  mkDxfState (dxf_vertices st) (dxf_faces st) (dxf_edges st ++ es)
    (vertex_map st).

Definition faces_append (st : DxfState) (f : list nat) : DxfState :=
  mkDxfState (dxf_vertices st) (dxf_faces st ++ [f]) (dxf_edges st)
    (vertex_map st).

(** [[indices[i], indices[i + 1]] for i in range(len(indices) - 1)] *)
Fixpoint consecutive (indices : list nat) : list (list nat) :=
  match indices with
  | a :: (b :: _) as rest => [a; b] :: consecutive rest
  | _ => []
  end.

(** The edges of a polyline: the consecutive pairs, and
    [[indices[-1], indices[0]]] when it is closed and has a point. *)
Definition polyline_edges (indices : list nat) (closed : bool)
  : list (list nat) :=
  consecutive indices ++
  match closed, indices with
  | true, first :: _ => [[last indices first; first]]
  | _, _ => []
  end.

Definition segments : nat := 32.

Section Trig.

(** [math.pi], [math.cos] and [math.sin]: the constant and the two
    functions of the C library, on floats. *)
Variable pi : Q.
Variables cos sin : Q -> Q.

(** The point of the circle for loop index [i]. *)
Definition circle_point (center : Vec3) (radius : Q) (i : nat) : Vec3 :=
  let angle := (2 * pi * inject_Z (Z.of_nat i)) / inject_Z (Z.of_nat segments) in
  mkVec3 (vx center + radius * cos angle)
         (vy center + radius * sin angle)
         (vz center).

(** [[indices[i], indices[(i + 1) % segments]] for i in range(segments)] *)
Definition circle_edges (indices : list nat) : list (list nat) :=
  map (fun i => [nth i indices 0%nat;
                 nth ((i + 1) mod segments) indices 0%nat])
    (seq 0 segments).

(** One pass of [for entity in msp]. *)
Definition parse_entity (st : DxfState) (entity : Entity) : DxfState :=
  match entity with
  | LINE p1 p2 =>
      let '(v1_idx, st1) := add_vertex (vx p1) (vy p1) (vz p1) st in
      let '(v2_idx, st2) := add_vertex (vx p2) (vy p2) (vz p2) st1 in
      edges_append st2 [[v1_idx; v2_idx]]
  | LWPOLYLINE pts closed =>
      let points := map (fun p => mkVec3 (fst p) (snd p) 0) pts in
      let '(indices, st1) := add_vertices points st in
      edges_append st1 (polyline_edges indices closed)
  | POLYLINE points is_closed =>
      let '(indices, st1) := add_vertices points st in
      edges_append st1 (polyline_edges indices is_closed)
  | FACE3D p0 p1 p2 =>
      let '(vertices_idx, st1) := add_vertices [p0; p1; p2] st in
      faces_append st1 vertices_idx
  | CIRCLE center radius =>
      let points := map (circle_point center radius) (seq 0 segments) in
      let '(indices, st1) := add_vertices points st in
      edges_append st1 (circle_edges indices)
  | OTHER _ => st
  end.

(** [_parse_dxf], after [ezdxf.readfile] has returned the document. *)
Definition _parse_dxf (doc : DxfDoc) : Geometry :=
  let st := fold_left parse_entity (modelspace doc) dxf_init in
  mkGeometry (dxf_vertices st) (dxf_faces st) (dxf_edges st)
    [ ("units", MStr "mm");
      ("source", MStr "DXF");
      ("layer_count", MInt (layers doc));
      ("entity_count", MInt (List.length (modelspace doc))) ].

End Trig.

(** *** STL *)

(** [tuple(vertex)]: the coordinates of the vertex, as a hashable key. *)
Definition tuple (vertex : list Q) : list Q := vertex.

(** Equality of two [tuple(vertex)] keys. *)
Fixpoint tuple_eqb (t1 t2 : list Q) : bool :=
  match t1, t2 with
  | [], [] => true
  | a :: t1', b :: t2' => Qeq_bool a b && tuple_eqb t1' t2'
  | _, _ => false
  end.

Record StlState : Type := mkStlState {
  stl_vertices : list (list Q);
  stl_faces : list (list nat);
  stl_vertex_map : list (list Q * nat)
}.

Definition stl_init : StlState := mkStlState [] [] [].

(** The body of [for vertex in triangle], returning the index appended to
    [face_indices]. *)
Definition stl_vertex (vertex : list Q) (st : StlState) : nat * StlState :=
  let vertex_tuple := tuple vertex in
  match dict_get tuple_eqb (stl_vertex_map st) vertex_tuple with
  | Some idx => (idx, st)
  | None =>
      let idx := List.length (stl_vertices st) in
      (idx,
       mkStlState (stl_vertices st ++ [vertex]) (stl_faces st)
         (stl_vertex_map st ++ [(vertex_tuple, idx)]))
  end.

Fixpoint stl_triangle_vertices (triangle : list (list Q)) (st : StlState)
  : list nat * StlState :=
  match triangle with
  | [] => ([], st)
  | vertex :: rest =>
      let '(i, st1) := stl_vertex vertex st in
      let '(is_, st2) := stl_triangle_vertices rest st1 in
      (i :: is_, st2)
  end.

(** One pass of [for i, triangle in enumerate(stl_mesh.vectors)]. *)
Definition stl_triangle (st : StlState) (triangle : list (list Q))
  : StlState :=
  let '(face_indices, st1) := stl_triangle_vertices triangle st in
  mkStlState (stl_vertices st1) (stl_faces st1 ++ [face_indices])
    (stl_vertex_map st1).

(** [_parse_stl], after [mesh.Mesh.from_file] has returned the triangles
    ([stl_mesh.vectors]). *)
Definition _parse_stl (vectors : list (list (list Q))) : Geometry :=
  let st := fold_left stl_triangle vectors stl_init in
  mkGeometry (stl_vertices st) (stl_faces st) []
    [ ("units", MStr "mm");
      ("source", MStr "STL");
      ("triangle_count", MInt (List.length vectors));
      ("unique_vertices", MInt (List.length (stl_vertices st))) ].

(** *** STEP and VBScript *)

(** [_parse_step] *)
Definition _parse_step : result Geometry :=
  Err (Raise NotImplementedError
         "STEP parsing requires pythonOCC-core. Coming in future update.").

(** [_parse_vbscript], after the file has been read. *)
Definition _parse_vbscript (file_path content : string) : Geometry :=
  mkGeometry [] [] []
    [ ("source", MStr "HFSS_VBScript");
      ("script_content", MStr content);
      ("file_path", MStr file_path) ].

(** *** The dispatcher *)

(** The file as the parser meets it: its path, [Path(file_path).suffix],
    and what each reader returns or raises on it ([ezdxf.readfile],
    [mesh.Mesh.from_file], [open(...).read()]). *)
Record SourceFile : Type := mkSourceFile {
  file_path : string;
  suffix : string;
  ezdxf_readfile : result DxfDoc;
  stl_from_file : result (list (list (list Q)));
  open_read : result string
}.

(** [str.lower] on ASCII letters. *)
Definition lower_ascii (c : ascii) : ascii :=
  let n := nat_of_ascii c in
  if ((65 <=? n) && (n <=? 90))%nat then ascii_of_nat (n + 32) else c.

Fixpoint lower (s : string) : string :=
  match s with
  | EmptyString => EmptyString
  | String c s' => String (lower_ascii c) (lower s')
  end.

(** [self.format] of [GeometryParser] and of [GNDLoader]. *)
Definition format_of (f : SourceFile) : string := lower (suffix f).

Section Parse.

Variable pi : Q.
Variables cos sin : Q -> Q.

(** [GeometryParser.parse] *)
Definition parse (f : SourceFile) : result Geometry :=
  let format := format_of f in
  if String.eqb format ".dxf" then
    doc <- ezdxf_readfile f ;; Ok (_parse_dxf pi cos sin doc)
  else if String.eqb format ".stl" then
    vectors <- stl_from_file f ;; Ok (_parse_stl vectors)
  else if String.eqb format ".step" || String.eqb format ".stp" then
    _parse_step
  else if String.eqb format ".vbs" then
    content <- open_read f ;; Ok (_parse_vbscript (file_path f) content)
  else Err (Raise ValueError ("Unsupported format: " ++ format)).

End Parse.

(* ===================================================================== *)
(** ** gnd_loader.py                                                      *)
(* ===================================================================== *)

Record Bounds : Type := mkBounds {
  min_x : Q; max_x : Q;
  min_y : Q; max_y : Q;
  min_z : Q; max_z : Q;
  width : Q; height : Q; depth : Q;
  center : list Q
}.

(** [calculate_bounds]; [None] is Python's [None]. *)
Definition calculate_bounds (g : Geometry) : result (option Bounds) :=
  match vertices g with
  | [] => Ok None
  | vs =>
      x_coords <- mapM (fun v => index v 0%nat) vs ;;
      y_coords <- mapM (fun v => index v 1%nat) vs ;;
      match x_coords, y_coords, map z_coord vs with
      | x :: xs, y :: ys, z :: zs =>
          let lo_x := py_min x xs in let hi_x := py_max x xs in
          let lo_y := py_min y ys in let hi_y := py_max y ys in
          let lo_z := py_min z zs in let hi_z := py_max z zs in
          Ok (Some (mkBounds lo_x hi_x lo_y hi_y lo_z hi_z
                      (hi_x - lo_x) (hi_y - lo_y) (hi_z - lo_z)
                      [ (lo_x + hi_x) / 2; (lo_y + hi_y) / 2;
                        (lo_z + hi_z) / 2 ]))
      | _, _, _ => Err (Raise ValueError "min() arg is an empty sequence")
      end
  end.

(** The contents of a report dict, read through its list references. *)
Record ReportView : Type := mkReportView {
  view_valid : bool;
  view_errors : list string;
  view_warnings : list string;
  view_suggestions : list string
}.

Definition read_report (r : Report) (self : GNDValidator) : ReportView :=
  mkReportView (valid r) (deref self (report_errors r))
    (deref self (report_warnings r)) (deref self (report_suggestions r)).

Record LoadResult : Type := mkLoadResult {
  res_geometry : Geometry;
  res_bounds : option Bounds;
  res_format : string;
  vertex_count : nat;
  face_count : nat;
  edge_count : nat;
  validation : ReportView
}.

Section Load.

Variable pi : Q.
Variables cos sin : Q -> Q.

(** The [try] block of [GNDLoader.load]. *)
Definition load_body (f : SourceFile) : result LoadResult :=
  g <- parse pi cos sin f ;;
  let validator := GNDValidator_init g in
  rv <- get_report validator ;;
  let '(validation_report, validator') := rv in
  if negb (valid validation_report) then
    Err (Raise ValueError
           ("Invalid geometry: "
            ++ join ", " (deref validator' (report_errors validation_report))))
  else
    bounds <- calculate_bounds g ;;
    Ok (mkLoadResult g bounds (format_of f)
          (List.length (vertices g)) (List.length (faces g))
          (List.length (edges g))
          (read_report validation_report validator')).

(** [GNDLoader.load]: [except Exception as e] wraps whatever the body
    raised. *)
Definition load (f : SourceFile) : result LoadResult :=
  match load_body f with
  | Ok r => Ok r
  | Err e => Err (Raise Exception ("Failed to load GND file: " ++ exn_str e))
  end.

End Load.

(** What [main] passes to [json.dumps] and prints: the result record with
    [success: True], or [success: False] with an error text. *)
Inductive Printed : Type :=
| PrintedSuccess (result : LoadResult)
| PrintedFailure (error : string).

Definition usage_error : string :=
  "Missing arguments. Usage: python gnd_loader.py <file_path> <project_path>".

Section Main.

Variable pi : Q.
Variables cos sin : Q -> Q.

(** The files of the machine: what is found at a path. *)
Variable file_at : string -> SourceFile.

(** [main], from [sys.argv] to what is printed and the exit status of the
    process ([sys.exit(1)] on both failure paths, 0 when the function
    returns). *)
Definition main (argv : list string) : Printed * nat :=
  match argv with
  | _ :: file_path :: project_path :: _ =>
      match load pi cos sin (file_at file_path) with
      | Ok result => (PrintedSuccess result, 0%nat)
      | Err e => (PrintedFailure (exn_str e), 1%nat)
      end
  | _ => (PrintedFailure usage_error, 1%nat)
  end.

End Main.

(* ===================================================================== *)
(** ** Notions used to state the properties                               *)
(* ===================================================================== *)

(** A vertex that has its x and y components. *)
Definition has_xy (v : list Q) : Prop := (2 <= List.length v)%nat.

(** The horizontal ray from [(px, py)] to the right crosses the edge: both
    end points exist, they lie on different sides of the line [y = py], and
    the edge meets that line to the right of [px]. *)
Definition crosses (vs : list (list Q)) (px py : Q) (edge : list nat) : bool :=
  match edge with
  | start_idx :: end_idx :: _ =>
      let v1 := nth start_idx vs [] in
      let v2 := nth end_idx vs [] in
      let x1 := nth 0 v1 0 in
      let y1 := nth 1 v1 0 in
      let x2 := nth 0 v2 0 in
      let y2 := nth 1 v2 0 in
      (start_idx <? List.length vs)%nat && (end_idx <? List.length vs)%nat
      && negb (Bool.eqb (Qlt_bool py y1) (Qlt_bool py y2))
      && Qlt_bool px (x1 + (x2 - x1) * (py - y1) / (y2 - y1))
  | _ => false
  end.

(** The number of edges the ray crosses. *)
Definition crossings (vs : list (list Q)) (px py : Q) (es : list (list nat))
  : nat :=
  List.length (filter (crosses vs px py) es).

(** Odd/even rule: inside iff the ray crosses an odd number of edges. *)
Definition inside (g : Geometry) (px py : Q) : bool :=
  Nat.odd (crossings (vertices g) px py (edges g)).

(** The [i]-th value of a loop variable started at [lo] and advanced by
    [step] on every pass. *)
Fixpoint grid (lo : Q) (i : nat) : Q :=
  match i with
  | O => lo
  | S i' => grid lo i' + step
  end.



(** *** First-seen numbering *)

Section FirstSeen.

(** Keys of vertices and their equality, as one deduplication site has
    them. *)
Variable K : Type.
Variable key : list Q -> K.
Variable eqb : K -> K -> bool.

(** Some vertex of [vs] has the key [k]. *)
Definition seen (k : K) (vs : list (list Q)) : bool :=
  existsb (fun v => eqb (key v) k) vs.

(** The position of the first vertex of [vs] that has the key [k]. *)
Fixpoint index_of (k : K) (vs : list (list Q)) : nat :=
  match vs with
  | [] => O
  | v :: vs' => if eqb (key v) k then O else S (index_of k vs')
  end.

(** [vs] followed by the points of [pts] whose key has not been seen
    before them, in the order of [pts]. *)
Fixpoint first_seen_from (vs pts : list (list Q)) : list (list Q) :=
  match pts with
  | [] => vs
  | p :: pts' =>
      if seen (key p) vs then first_seen_from vs pts'
      else first_seen_from (vs ++ [p]) pts'
  end.

(** The dict that maps the key of every vertex to its position. *)
Definition enum_from (n : nat) (vs : list (list Q)) : list (K * nat) :=
  combine (map key vs) (seq n (List.length vs)).

(** No two vertices of [vs] have the same key: every vertex is the first
    one with its key. *)
Definition distinct_keys (vs : list (list Q)) : Prop :=
  forall j, (j < List.length vs)%nat -> index_of (key (nth j vs [])) vs = j.

(** The shape both deduplication sites share: look the key up, return
    the index found, or append the vertex and return its position. *)
Definition intern (v : list Q) (s : list (list Q) * list (K * nat))
  : nat * (list (list Q) * list (K * nat)) :=
  match dict_get eqb (snd s) (key v) with
  | Some idx => (idx, s)
  | None =>
      (List.length (fst s),
       (fst s ++ [v], snd s ++ [(key v, List.length (fst s))]))
  end.

Fixpoint intern_all (pts : list (list Q))
  (s : list (list Q) * list (K * nat))
  : list nat * (list (list Q) * list (K * nat)) :=
  match pts with
  | [] => ([], s)
  | p :: pts' =>
      let '(i, s1) := intern p s in
      let '(is_, s2) := intern_all pts' s1 in
      (i :: is_, s2)
  end.

End FirstSeen.

Arguments seen {K} key eqb k vs.
Arguments index_of {K} key eqb k vs.
Arguments first_seen_from {K} key eqb vs pts.
Arguments enum_from {K} key n vs.
Arguments distinct_keys {K} key eqb vs.
Arguments intern {K} key eqb v s.
Arguments intern_all {K} key eqb pts s.

(** The key [add_vertex] computes for a stored vertex [[x, y, z]]. *)
Definition key3 (v : list Q) : Key :=
  snap_key (nth 0 v 0) (nth 1 v 0) (nth 2 v 0).

Definition vec_list (p : Vec3) : list Q := [vx p; vy p; vz p].

(** [vertex_map] maps the key of every vertex to its position. *)
Definition dxf_inv (st : DxfState) : Prop :=
  vertex_map st = enum_from key3 0 (dxf_vertices st).

(** [st2] is a state of the same parse at or after [st1]. *)
Definition later (st1 st2 : DxfState) : Prop :=
  dxf_inv st2 /\ exists more, dxf_vertices st2 = (dxf_vertices st1 ++ more)%list.

(** Two coordinates are snapped to the same multiple of [epsilon]. *)
Definition same_cell (a b : Q) : Prop :=
  py_round (a / epsilon) = py_round (b / epsilon).

Section TrigNotions.

Variable pi : Q.
Variables cos sin : Q -> Q.

(** The points an entity passes to [add_vertex], in call order. *)
Definition entity_points (entity : Entity) : list Vec3 :=
  match entity with
  | LINE p1 p2 => [p1; p2]
  | LWPOLYLINE pts _ => map (fun p => mkVec3 (fst p) (snd p) 0) pts
  | POLYLINE points _ => points
  | FACE3D p0 p1 p2 => [p0; p1; p2]
  | CIRCLE center radius =>
      map (circle_point pi cos sin center radius) (seq 0 segments)
  | OTHER _ => []
  end.

End TrigNotions.

(** The edges and faces an entity appends, from the indices of its
    points. *)
Definition entity_edges (entity : Entity) (indices : list nat)
  : list (list nat) :=
  match entity with
  | LINE _ _ => [[nth 0 indices 0%nat; nth 1 indices 0%nat]]
  | LWPOLYLINE _ closed => polyline_edges indices closed
  | POLYLINE _ is_closed => polyline_edges indices is_closed
  | CIRCLE _ _ => circle_edges indices
  | _ => []
  end.

Definition entity_faces (entity : Entity) (indices : list nat)
  : list (list nat) :=
  match entity with
  | FACE3D _ _ _ => [indices]
  | _ => []
  end.

(** The index of a point in the vertex list [V]: the position of the first
    vertex with its key. *)
Definition resolve (V : list (list Q)) (p : Vec3) : nat :=
  index_of key3 key_eqb (key3 (vec_list p)) V.

Section DxfSpec.

Variable pi : Q.
Variables cos sin : Q -> Q.

(** All the points of a model space, in call order. *)
Definition dxf_points (msp : list Entity) : list (list Q) :=
  map vec_list (flat_map (entity_points pi cos sin) msp).

(** The DXF parser as a function of the first-seen numbering: the
    vertices are the first-seen points, and every entity contributes the
    edges and faces over the positions of its points. *)
Definition dxf_spec (doc : DxfDoc) : Geometry :=
  let msp := modelspace doc in
  let V := first_seen_from key3 key_eqb [] (dxf_points msp) in
  let indices e := map (resolve V) (entity_points pi cos sin e) in
  mkGeometry V
    (flat_map (fun e => entity_faces e (indices e)) msp)
    (flat_map (fun e => entity_edges e (indices e)) msp)
    [ ("units", MStr "mm");
      ("source", MStr "DXF");
      ("layer_count", MInt (layers doc));
      ("entity_count", MInt (List.length msp)) ].

End DxfSpec.

(** The STL parser as a function of the first-seen numbering: the key of a
    vertex is the vertex itself. *)
Definition stl_spec (vectors : list (list (list Q))) : Geometry :=
  let V := first_seen_from tuple tuple_eqb [] (List.concat vectors) in
  mkGeometry V
    (map (map (fun v => index_of tuple tuple_eqb (tuple v) V)) vectors)
    []
    [ ("units", MStr "mm");
      ("source", MStr "STL");
      ("triangle_count", MInt (List.length vectors));
      ("unique_vertices", MInt (List.length V)) ].


(** Two files with the same bytes at the same path: the path, the suffix
    and what every reader returns agree. *)
Definition same_file (f1 f2 : SourceFile) : Prop :=
  file_path f1 = file_path f2 /\
  suffix f1 = suffix f2 /\
  ezdxf_readfile f1 = ezdxf_readfile f2 /\
  stl_from_file f1 = stl_from_file f2 /\
  open_read f1 = open_read f2.

(** The validator [self] after a run has appended to its lists what the
    run appends to the lists of a fresh validator [f]. *)
Definition extend (self f : GNDValidator) : GNDValidator :=
  mkValidator (geometry self) (errors self ++ errors f)
    (warnings self ++ warnings f) (suggestions self ++ suggestions f).

(** A check appends: on any validator it adds to the lists what it adds
    on a fresh validator for the same geometry. *)
Definition appends (check : GNDValidator -> GNDValidator) : Prop :=
  forall self,
    check self = extend self (check (GNDValidator_init (geometry self))).

(** A validator just constructed: its three lists are empty. *)
Definition is_fresh (self : GNDValidator) : Prop :=
  errors self = [] /\ warnings self = [] /\ suggestions self = [].

(** Between [before] and [after] the messages [e], [w] and [s] were
    appended. *)
Definition appended (before after : GNDValidator) (e w s : list string)
  : Prop :=
  errors after = errors before ++ e /\
  warnings after = warnings before ++ w /\
  suggestions after = suggestions before ++ s.

(** What two validation runs show when compared: both raise the same
    exception, or both return reports that read the same. *)
Definition same_outcome (o1 o2 : result (Report * GNDValidator)) : Prop :=
  match o1, o2 with
  | Ok (r1, s1), Ok (r2, s2) => read_report r1 s1 = read_report r2 s2
  | Err e1, Err e2 => e1 = e2
  | _, _ => False
  end.

(** Sample inputs. *)
Definition square (side : Q) : Geometry :=
  mkGeometry
    [[0; 0; 0]; [side; 0; 0]; [side; side; 0]; [0; side; 0]]
    []
    [[0; 1]; [1; 2]; [2; 3]; [3; 0]]%nat
    [].

(** A plus shape in a 60 by 60 box whose arms are 20 wide. *)
Definition plus_shape : Geometry :=
  mkGeometry
    [[20; 0]; [40; 0]; [40; 20]; [60; 20]; [60; 40]; [40; 40];
     [40; 60]; [20; 60]; [20; 40]; [0; 40]; [0; 20]; [20; 20]]
    []
    [[0; 1]; [1; 2]; [2; 3]; [3; 4]; [4; 5]; [5; 6];
     [6; 7]; [7; 8]; [8; 9]; [9; 10]; [10; 11]; [11; 0]]%nat
    [].

Definition square_dxf (side : Q) : DxfDoc :=
  mkDxfDoc 1
    [LWPOLYLINE [(0, 0); (side, 0); (side, side); (0, side)] true].

Definition dxf_file (path : string) (doc : DxfDoc) : SourceFile :=
  mkSourceFile path ".DXF" (Ok doc)
    (Err (Raise ValueError "not an STL file"))
    (Err (Raise OSError "not read")).

Definition vbs_file (path content : string) : SourceFile :=
  mkSourceFile path ".vbs"
    (Err (Raise ValueError "not a DXF file"))
    (Err (Raise ValueError "not an STL file"))
    (Ok content).

(** *** Notions for the further properties *)

(** An index that refers to a vertex of [g]. *)
Definition valid_index (g : Geometry) (i : nat) : Prop :=
  (i < List.length (vertices g))%nat.

(** The number of times [k] occurs in [l]. *)
Definition occurrences (k : nat) (l : list nat) : nat :=
  count_occ Nat.eq_dec l k.

(** The dict after counting the entries of [l]: every index that occurs is
    a key, once, with the number of its occurrences. *)
Definition counts (d : list (nat * nat)) (l : list nat) : Prop :=
  NoDup (map fst d) /\
  forall j, dict_get Nat.eqb d j
            = if (occurrences j l =? 0)%nat then None
              else Some (occurrences j l).

(** The number of entries of an edge-count dict with an odd count. *)
Definition odd_entries (edge_count : list (nat * nat)) : nat :=
  List.length (filter (fun kc => negb (Nat.even (snd kc))) edge_count).

(** An entity that draws closed outlines only: a circle or a closed
    polyline. *)
Definition closed_entity (entity : Entity) : Prop :=
  match entity with
  | LWPOLYLINE _ closed => closed = true
  | POLYLINE _ is_closed => is_closed = true
  | CIRCLE _ _ => True
  | _ => False
  end.

(** The rectangle with corners (0,0) and (w,h), as a closed outline of
    four edges. *)
Definition rectangle (w h : Q) : Geometry :=
  mkGeometry
    [[0; 0; 0]; [w; 0; 0]; [w; h; 0]; [0; h; 0]]
    []
    [[0; 1]; [1; 2]; [2; 3]; [3; 0]]%nat
    [ ("units", MStr "mm");
      ("source", MStr "DXF");
      ("layer_count", MInt 1);
      ("entity_count", MInt 1) ].






(** An entity of a type the DXF parser reads. *)
Definition drawn (entity : Entity) : bool :=
  match entity with
  | OTHER _ => false
  | _ => true
  end.

(** A drawing with a text beside a closed square. *)
Definition annotated_dxf (side : Q) : DxfDoc :=
  mkDxfDoc 1
    [OTHER "TEXT";
     LWPOLYLINE [(0, 0); (side, 0); (side, side); (0, side)] true].


(* ===================================================================== *)
(** ** Properties                                                         *)
(* ===================================================================== *)

(** *** Comparisons on [Q] *)

Lemma Qlt_bool_iff (a b : Q) : Qlt_bool a b = true <-> a < b.
Proof.
  unfold Qlt_bool. rewrite negb_true_iff. split.
  - intros H. apply Qnot_le_lt. intros Hle.
    apply Qle_bool_iff in Hle. congruence.
  - intros H. destruct (Qle_bool b a) eqn:E; [|reflexivity].
    apply Qle_bool_iff in E. exfalso. exact (Qlt_not_le _ _ H E).
Qed.

Lemma Qlt_bool_false_iff (a b : Q) : Qlt_bool a b = false <-> b <= a.
Proof.
  unfold Qlt_bool. rewrite negb_false_iff. apply Qle_bool_iff.
Qed.

(** *** The result monad *)

Lemma bind_Ok {A B : Type} (m : result A) (k : A -> result B) (b : B) :
  bind m k = Ok b -> exists a, m = Ok a /\ k a = Ok b.
Proof.
  destruct m as [a|e]; simpl; intros H; [eauto | discriminate].
Qed.


Lemma index_lt {A : Type} (l : list A) (i : nat) (d : A) :
  (i < List.length l)%nat -> index l i = Ok (nth i l d).
Proof.
  intros H. unfold index.
  destruct (nth_error l i) eqn:E.
  - f_equal. symmetry. now apply nth_error_nth.
  - apply nth_error_None in E. lia.
Qed.

Lemma mapM_index_Ok (vs : list (list Q)) (i : nat) :
  Forall (fun v => (i < List.length v)%nat) vs ->
  mapM (fun v => index v i) vs = Ok (map (fun v => nth i v 0) vs).
Proof.
  induction 1 as [|v vs Hv _ IH]; simpl; [reflexivity|].
  rewrite (index_lt v i 0 Hv). simpl. rewrite IH. reflexivity.
Qed.




(** *** Ray casting *)

Lemma edge_crossing_spec (vs : list (list Q)) (px py : Q) (edge : list nat) :
  Forall has_xy vs ->
  exists c, edge_crossing vs px py edge = Ok c /\
            (c = Some true <-> crosses vs px py edge = true).
Proof.
  intros HF. unfold edge_crossing, crosses.
  destruct edge as [|s [|e rest]].
  - exists None. split; [reflexivity|]. split; discriminate.
  - exists None. split; [reflexivity|]. split; discriminate.
  - destruct (Nat.leb_spec (List.length vs) s) as [Hs|Hs].
    + exists None. split; [reflexivity|].
      replace (s <? List.length vs)%nat with false
        by (symmetry; apply Nat.ltb_ge; lia).
      split; discriminate.
    + destruct (Nat.leb_spec (List.length vs) e) as [He|He].
      * exists None. split; [reflexivity|].
        replace (e <? List.length vs)%nat with false
          by (symmetry; apply Nat.ltb_ge; lia).
        rewrite andb_false_r. split; discriminate.
      * simpl orb. cbv iota.
        rewrite (index_lt vs s [] Hs), (index_lt vs e [] He). simpl bind.
        assert (H1 : has_xy (nth s vs [])).
        { rewrite Forall_forall in HF. apply HF. now apply nth_In. }
        assert (H2 : has_xy (nth e vs [])).
        { rewrite Forall_forall in HF. apply HF. now apply nth_In. }
        unfold has_xy in H1, H2.
        rewrite (index_lt (nth s vs []) 0 0) by lia.
        rewrite (index_lt (nth s vs []) 1 0) by lia.
        rewrite (index_lt (nth e vs []) 0 0) by lia.
        rewrite (index_lt (nth e vs []) 1 0) by lia.
        simpl bind.
        replace (s <? List.length vs)%nat with true
          by (symmetry; apply Nat.ltb_lt; lia).
        replace (e <? List.length vs)%nat with true
          by (symmetry; apply Nat.ltb_lt; lia).
        simpl andb.
        destruct (negb _).
        -- eexists. split; [reflexivity|]. simpl.
           split; [now inversion 1 | now intros ->].
        -- eexists. split; [reflexivity|]. simpl. split; discriminate.
Qed.

Lemma ray_cast_spec (vs : list (list Q)) (px py : Q) (es : list (list nat))
  (b : bool) :
  Forall has_xy vs ->
  ray_cast vs px py es b = Ok (xorb b (Nat.odd (crossings vs px py es))).
Proof.
  intros HF. revert b. induction es as [|edge es IH]; intros b.
  - simpl. now rewrite xorb_false_r.
  - simpl. destruct (edge_crossing_spec vs px py edge HF) as [c [Hc Hiff]].
    rewrite Hc. simpl. unfold crossings in *. simpl filter.
    destruct (crosses vs px py edge) eqn:Ecr.
    + assert (c = Some true) as -> by now apply Hiff.
      rewrite IH. simpl List.length. rewrite Nat.odd_succ, <- Nat.negb_odd.
      f_equal. destruct b, (Nat.odd _); reflexivity.
    + assert (Hne : c <> Some true).
      { intros Hc'. apply Hiff in Hc'. discriminate. }
      destruct c as [[|]|]; try congruence; apply IH.
Qed.

Lemma point_in_polygon_spec (self : GNDValidator) (px py : Q) :
  Forall has_xy (vertices (geometry self)) ->
  edges (geometry self) <> [] ->
  _point_in_polygon self px py = Ok (inside (geometry self) px py).
Proof.
  intros HF Hne. unfold _point_in_polygon, inside.
  destruct (edges (geometry self)) as [|e es] eqn:E; [congruence|].
  now rewrite ray_cast_spec.
Qed.


(** *** The grid search *)

Lemma grid_shift (x : Q) (i : nat) : grid (x + step) i = grid x (S i).
Proof.
  induction i as [|i IH]; simpl; [reflexivity|].
  rewrite IH. reflexivity.
Qed.

Lemma grid_closed_form (lo : Q) (i : nat) :
  grid lo i == lo + inject_Z (Z.of_nat i) * step.
Proof.
  induction i as [|i IH].
  - change (grid lo 0) with lo. change (inject_Z (Z.of_nat 0)) with 0.
    unfold step. lra.
  - change (grid lo (S i)) with (grid lo i + step). rewrite IH.
    rewrite Nat2Z.inj_succ. unfold Z.succ. rewrite inject_Z_plus.
    unfold step. change (inject_Z 1) with 1.
    generalize (inject_Z (Z.of_nat i)). intros q. lra.
Qed.

Lemma grid_ge (x : Q) (i : nat) : x <= grid x i.
Proof.
  induction i as [|i IH]; simpl; [lra|]. unfold step. lra.
Qed.

Lemma loop_bound_enough (lo hi : Q) (i : nat) :
  grid lo i <= hi -> (i < loop_bound lo hi)%nat.
Proof.
  intros H. rewrite grid_closed_form in H. unfold loop_bound.
  assert (Hq : inject_Z (Z.of_nat i) <= (hi - lo) / step).
  { apply Qle_shift_div_l; [reflexivity|]. lra. }
  apply Qfloor_resp_le in Hq. rewrite Qfloor_Z in Hq. lia.
Qed.

Section GridSearch.

Variable self : GNDValidator.
Variable half : Q.
Variable fit : Q -> Q -> bool.
Hypothesis all_inside_fit :
  forall x y, all_inside self (test_points x y half) = Ok (fit x y).

Lemma scan_x_spec (hi y : Q) (fuel : nat) :
  forall x, exists b,
    scan_x fuel self half x hi y = Ok b /\
    (b = true <->
     exists i, (i < fuel)%nat /\ grid x i <= hi /\ fit (grid x i) y = true).
Proof.
  induction fuel as [|fuel IH]; intros x.
  - exists false. split; [reflexivity|]. split; [discriminate|].
    intros [i [Hi _]]. lia.
  - cbn [scan_x]. destruct (Qle_bool x hi) eqn:Ele.
    + rewrite all_inside_fit. cbn [bind]. destruct (fit x y) eqn:Efit.
      * exists true. split; [reflexivity|]. split; [|reflexivity].
        intros _. exists 0%nat. simpl. apply Qle_bool_iff in Ele.
        repeat split; [lia | assumption | assumption].
      * destruct (IH (x + step)) as [b [Hb Hiff]].
        exists b. split; [exact Hb|]. rewrite Hiff. split.
        -- intros [i [Hi [Hle Hf]]]. exists (S i).
           rewrite <- grid_shift. repeat split; [lia | | ]; assumption.
        -- intros [[|i] [Hi [Hle Hf]]].
           ++ simpl in Hf. congruence.
           ++ exists i. rewrite grid_shift.
              repeat split; [lia | | ]; assumption.
    + exists false. split; [reflexivity|]. split; [discriminate|].
      intros [i [_ [Hle _]]].
      assert (Hx : x <= hi) by (eapply Qle_trans; [apply grid_ge | exact Hle]).
      apply Qle_bool_iff in Hx. congruence.
Qed.

(** The inner loop with any count that covers the candidates: it returns,
    and returns [True] iff some candidate of the row fits. *)
Lemma scan_x_enough (hi y x : Q) (fuel : nat) :
  (loop_bound x hi <= fuel)%nat ->
  exists b,
    scan_x fuel self half x hi y = Ok b /\
    (b = true <-> exists i, grid x i <= hi /\ fit (grid x i) y = true).
Proof.
  intros Hfuel. destruct (scan_x_spec hi y fuel x) as [b [Hb Hiff]].
  exists b. split; [exact Hb|]. rewrite Hiff. split.
  - intros [i [_ H]]. eauto.
  - intros [i [Hle Hf]]. exists i.
    pose proof (loop_bound_enough _ _ _ Hle). repeat split; [lia | | ]; assumption.
Qed.

(** More passes than [loop_bound] change nothing: the loop has left
    through its test before the count runs out. *)
Lemma scan_x_fuel (hi y x : Q) (fuel : nat) :
  (loop_bound x hi <= fuel)%nat ->
  scan_x fuel self half x hi y = scan_x (loop_bound x hi) self half x hi y.
Proof.
  intros Hfuel.
  destruct (scan_x_enough hi y x fuel Hfuel) as [b [Hb Hiff]].
  destruct (scan_x_enough hi y x (loop_bound x hi) (le_n _)) as [b' [Hb' Hiff']].
  rewrite Hb, Hb'. f_equal.
  destruct b, b'; try reflexivity.
  - symmetry. apply Hiff'. now apply Hiff.
  - apply Hiff. now apply Hiff'.
Qed.

Lemma scan_y_spec (lo_x hi_x hi_y : Q) (fuel : nat) :
  forall y, exists b,
    scan_y fuel self half lo_x hi_x y hi_y = Ok b /\
    (b = true <->
     exists j, (j < fuel)%nat /\ grid y j <= hi_y /\
               exists i, grid lo_x i <= hi_x /\
                         fit (grid lo_x i) (grid y j) = true).
Proof.
  induction fuel as [|fuel IH]; intros y.
  - exists false. split; [reflexivity|]. split; [discriminate|].
    intros [j [Hj _]]. lia.
  - cbn [scan_y]. destruct (Qle_bool y hi_y) eqn:Ele.
    + destruct (scan_x_enough hi_x y lo_x _ (le_n _)) as [found [Hf Hfiff]].
      rewrite Hf. cbn [bind]. destruct found.
      * exists true. split; [reflexivity|]. split; [|reflexivity].
        intros _. exists 0%nat. simpl. apply Qle_bool_iff in Ele.
        repeat split; [lia | assumption | now apply Hfiff].
      * destruct (IH (y + step)) as [b [Hb Hiff]].
        exists b. split; [exact Hb|]. rewrite Hiff. split.
        -- intros [j [Hj [Hle Hex]]]. exists (S j).
           rewrite <- grid_shift. repeat split; [lia | | ]; assumption.
        -- intros [[|j] [Hj [Hle Hex]]].
           ++ simpl in Hex. apply Hfiff in Hex. discriminate.
           ++ exists j. rewrite grid_shift.
              repeat split; [lia | | ]; assumption.
    + exists false. split; [reflexivity|]. split; [discriminate|].
      intros [j [_ [Hle _]]].
      assert (Hy : y <= hi_y) by (eapply Qle_trans; [apply grid_ge | exact Hle]).
      apply Qle_bool_iff in Hy. congruence.
Qed.

Lemma scan_y_enough (lo_x hi_x hi_y y : Q) (fuel : nat) :
  (loop_bound y hi_y <= fuel)%nat ->
  exists b,
    scan_y fuel self half lo_x hi_x y hi_y = Ok b /\
    (b = true <->
     exists i j, grid lo_x i <= hi_x /\ grid y j <= hi_y /\
                 fit (grid lo_x i) (grid y j) = true).
Proof.
  intros Hfuel. destruct (scan_y_spec lo_x hi_x hi_y fuel y) as [b [Hb Hiff]].
  exists b. split; [exact Hb|]. rewrite Hiff. split.
  - intros [j [_ [Hle [i [Hi Hf]]]]]. exists i, j. auto.
  - intros [i [j [Hi [Hle Hf]]]]. exists j.
    pose proof (loop_bound_enough _ _ _ Hle).
    repeat split; [lia | assumption | eauto].
Qed.

Lemma scan_y_fuel (lo_x hi_x hi_y y : Q) (fuel : nat) :
  (loop_bound y hi_y <= fuel)%nat ->
  scan_y fuel self half lo_x hi_x y hi_y
  = scan_y (loop_bound y hi_y) self half lo_x hi_x y hi_y.
Proof.
  intros Hfuel.
  destruct (scan_y_enough lo_x hi_x hi_y y fuel Hfuel) as [b [Hb Hiff]].
  destruct (scan_y_enough lo_x hi_x hi_y y _ (le_n _)) as [b' [Hb' Hiff']].
  rewrite Hb, Hb'. f_equal.
  destruct b, b'; try reflexivity.
  - symmetry. apply Hiff'. now apply Hiff.
  - apply Hiff. now apply Hiff'.
Qed.

End GridSearch.

(** *** Check 2 and check 3: minimum size and placement feasibility *)





(** *** What each check leaves alone *)

Lemma check_empty_geometry_frame (self : GNDValidator) :
  geometry (_check_empty_geometry self) = geometry self /\
  warnings (_check_empty_geometry self) = warnings self /\
  suggestions (_check_empty_geometry self) = suggestions self.
Proof.
  unfold _check_empty_geometry.
  destruct (vertices (geometry self)); repeat split; reflexivity.
Qed.

Lemma check_planar_geometry_frame (self : GNDValidator) :
  geometry (_check_planar_geometry self) = geometry self /\
  errors (_check_planar_geometry self) = errors self /\
  warnings (_check_planar_geometry self) = warnings self.
Proof.
  unfold _check_planar_geometry.
  destruct (vertices (geometry self)); [repeat split; reflexivity|].
  destruct (Qlt_bool _ _); repeat split; reflexivity.
Qed.

Lemma check_closed_boundaries_frame (self : GNDValidator) :
  geometry (_check_closed_boundaries self) = geometry self /\
  errors (_check_closed_boundaries self) = errors self /\
  suggestions (_check_closed_boundaries self) = suggestions self.
Proof.
  unfold _check_closed_boundaries.
  destruct (edges (geometry self)).
  - destruct (faces (geometry self)); repeat split; reflexivity.
  - destruct (_ <? _)%nat; repeat split; reflexivity.
Qed.

Lemma check_self_intersections_frame (self : GNDValidator) :
  geometry (_check_self_intersections self) = geometry self /\
  errors (_check_self_intersections self) = errors self /\
  warnings (_check_self_intersections self) = warnings self.
Proof.
  unfold _check_self_intersections.
  destruct (_ <? _)%nat; repeat split; reflexivity.
Qed.

(** The errors after checks 4 to 6 are the errors before them. *)
Lemma advisory_checks_errors (self : GNDValidator) :
  errors (_check_self_intersections
            (_check_closed_boundaries (_check_planar_geometry self)))
  = errors self.
Proof.
  destruct (check_self_intersections_frame
              (_check_closed_boundaries (_check_planar_geometry self)))
    as [_ [-> _]].
  destruct (check_closed_boundaries_frame (_check_planar_geometry self))
    as [_ [-> _]].
  now destruct (check_planar_geometry_frame self) as [_ [-> _]].
Qed.

Lemma is_valid_unfold (self v : GNDValidator) :
  _check_minimum_size (_check_empty_geometry self) = Ok v ->
  let v' := _check_self_intersections
              (_check_closed_boundaries (_check_planar_geometry v)) in
  is_valid self = Ok ((List.length (errors v) =? 0)%nat, v') /\
  errors v' = errors v.
Proof.
  intros H v'. unfold is_valid. rewrite H. cbn [bind].
  fold v'. unfold v'. rewrite advisory_checks_errors. split; reflexivity.
Qed.





(** C6.  Empty geometry.  With an empty vertex list, validation returns a
    report (no check raises), the emptiness error is the one error added,
    [valid] is false, the size and planarity checks return without adding
    anything, and [calculate_bounds] returns [None]. *)
Theorem empty_geometry_handling (self : GNDValidator) :
  vertices (geometry self) = [] ->
  (exists (r : Report) (self' : GNDValidator),
      get_report self = Ok (r, self') /\
      valid r = false /\
      deref self' (report_errors r) = (errors self ++ [msg_empty])%list) /\
  _check_empty_geometry self = errors_append self msg_empty /\
  _check_minimum_size (_check_empty_geometry self)
  = Ok (_check_empty_geometry self) /\
  _check_planar_geometry (_check_empty_geometry self)
  = _check_empty_geometry self /\
  calculate_bounds (geometry self) = Ok None.
Proof.
  intros HV.
  assert (He : _check_empty_geometry self = errors_append self msg_empty).
  { unfold _check_empty_geometry. now rewrite HV. }
  assert (Hm : _check_minimum_size (_check_empty_geometry self)
               = Ok (_check_empty_geometry self)).
  { unfold _check_minimum_size.
    destruct (check_empty_geometry_frame self) as [-> _]. now rewrite HV. }
  split; [|split; [exact He|split; [exact Hm|split]]].
  - destruct (is_valid_unfold self _ Hm) as [Hvalid Herr].
    eexists _, _. unfold get_report. rewrite Hvalid. cbn [bind].
    split; [reflexivity|]. cbn [valid report_errors deref]. split.
    + rewrite He. cbn [errors errors_append]. rewrite length_app.
      cbn [List.length]. apply Nat.eqb_neq. lia.
    + rewrite Herr, He. reflexivity.
  - unfold _check_planar_geometry.
    destruct (check_empty_geometry_frame self) as [-> _]. now rewrite HV.
  - unfold calculate_bounds. now rewrite HV.
Qed.

(** *** The loader *)

Section LoaderProperties.

Variable pi : Q.
Variables cos sin : Q -> Q.

(** C3.  Load failure on invalid geometry.  Once the file has parsed and
    the validator has produced its report: if the report is not valid,
    [load] raises, with the message that joins the report's error strings
    by a comma and a space, and there is no result record; a result
    record is returned only if the report is valid, and then it carries
    the geometry, the bounds, the counts and the report. *)
Theorem load_failure_on_invalid (f : SourceFile) (g : Geometry)
  (r : Report) (v' : GNDValidator) :
  parse pi cos sin f = Ok g ->
  get_report (GNDValidator_init g) = Ok (r, v') ->
  (valid r = false ->
   load pi cos sin f
   = Err (Raise Exception
            ("Failed to load GND file: Invalid geometry: "
             ++ join ", " (deref v' (report_errors r))))) /\
  (forall res : LoadResult,
      load pi cos sin f = Ok res ->
      valid r = true /\
      res_geometry res = g /\
      calculate_bounds g = Ok (res_bounds res) /\
      vertex_count res = List.length (vertices g) /\
      face_count res = List.length (faces g) /\
      edge_count res = List.length (edges g) /\
      validation res = read_report r v').
Proof.
  intros Hparse Hreport. unfold load, load_body.
  rewrite Hparse. cbn [bind]. rewrite Hreport. cbn [bind].
  destruct (valid r) eqn:Ev; cbn [negb]; split.
  - discriminate.
  - intros res. destruct (calculate_bounds g) as [b|e] eqn:Eb; cbn [bind].
    + intros H. inversion H; subst res. cbn. repeat split; reflexivity.
    + discriminate.
  - intros _. reflexivity.
  - discriminate.
Qed.

(** C10.  A VBScript file never loads.  For a file whose lowered suffix
    is [.vbs]: when the file can be read, the parser returns a geometry
    without vertices, edges or faces that keeps the script text in its
    metadata, and [load] raises with the emptiness error; in every case
    [load] returns no result record. *)
Theorem vbs_never_loads (f : SourceFile) :
  format_of f = ".vbs" ->
  (forall content : string,
      open_read f = Ok content ->
      exists g : Geometry,
        parse pi cos sin f = Ok g /\
        vertices g = [] /\ edges g = [] /\ faces g = [] /\
        In ("script_content", MStr content) (metadata g) /\
        load pi cos sin f
        = Err (Raise Exception
                 ("Failed to load GND file: Invalid geometry: "
                  ++ msg_empty))) /\
  (forall res : LoadResult, load pi cos sin f <> Ok res).
Proof.
  intros Hfmt.
  assert (Hparse : parse pi cos sin f
                   = (content <- open_read f ;;
                      Ok (_parse_vbscript (file_path f) content))).
  { unfold parse. rewrite Hfmt. reflexivity. }
  split.
  - intros content Hread. rewrite Hread in Hparse. cbn [bind] in Hparse.
    eexists. split; [exact Hparse|].
    repeat split; try reflexivity.
    + cbn. right. left. reflexivity.
    + unfold load, load_body. rewrite Hparse. reflexivity.
  - intros res. unfold load, load_body. rewrite Hparse.
    destruct (open_read f) as [content|e]; cbn [bind]; discriminate.
Qed.

End LoaderProperties.

(** *** Deduplication: first-seen numbering *)

Section FirstSeenFacts.

Variable K : Type.
Variable key : list Q -> K.
Variable eqb : K -> K -> bool.
Hypothesis eqb_refl : forall k, eqb k k = true.
Hypothesis eqb_sym : forall a b, eqb a b = true -> eqb b a = true.
Hypothesis eqb_trans :
  forall a b c, eqb a b = true -> eqb b c = true -> eqb a c = true.

Lemma seen_app (k : K) (vs ws : list (list Q)) :
  seen key eqb k (vs ++ ws) = seen key eqb k vs || seen key eqb k ws.
Proof. unfold seen. apply existsb_app. Qed.

Lemma seen_self (v : list Q) (vs : list (list Q)) :
  In v vs -> seen key eqb (key v) vs = true.
Proof.
  intros Hin. unfold seen. apply existsb_exists. eauto.
Qed.

Lemma index_of_app_seen (k : K) (vs ws : list (list Q)) :
  seen key eqb k vs = true ->
  index_of key eqb k (vs ++ ws) = index_of key eqb k vs.
Proof.
  induction vs as [|v vs IH]; simpl; [discriminate|].
  destruct (eqb (key v) k); simpl; [reflexivity|].
  intros H. now rewrite IH.
Qed.

Lemma index_of_app_unseen (k : K) (vs ws : list (list Q)) :
  seen key eqb k vs = false ->
  index_of key eqb k (vs ++ ws)
  = (List.length vs + index_of key eqb k ws)%nat.
Proof.
  induction vs as [|v vs IH]; simpl; [reflexivity|].
  destruct (eqb (key v) k); simpl; [discriminate|].
  intros H. now rewrite IH.
Qed.

Lemma index_of_lt (k : K) (vs : list (list Q)) :
  seen key eqb k vs = true -> (index_of key eqb k vs < List.length vs)%nat.
Proof.
  induction vs as [|v vs IH]; simpl; [discriminate|].
  destruct (eqb (key v) k); simpl; [lia|].
  intros H. apply IH in H. lia.
Qed.

(** The vertex found has the key looked up. *)
Lemma index_of_key (k : K) (vs : list (list Q)) :
  seen key eqb k vs = true ->
  eqb (key (nth (index_of key eqb k vs) vs [])) k = true.
Proof.
  induction vs as [|v vs IH]; simpl; [discriminate|].
  destruct (eqb (key v) k) eqn:E; simpl; [intros _; exact E | exact IH].
Qed.

Lemma eqb_congr (a b k : K) : eqb a b = true -> eqb k a = eqb k b.
Proof.
  intros H. destruct (eqb k a) eqn:Ea, (eqb k b) eqn:Eb; try reflexivity.
  - rewrite (eqb_trans _ _ _ Ea H) in Eb. discriminate.
  - rewrite (eqb_trans _ _ _ Eb (eqb_sym _ _ H)) in Ea. discriminate.
Qed.

Lemma index_of_congr (a b : K) (vs : list (list Q)) :
  eqb a b = true -> index_of key eqb a vs = index_of key eqb b vs.
Proof.
  intros H. induction vs as [|v vs IH]; simpl; [reflexivity|].
  rewrite (eqb_congr a b (key v) H). now rewrite IH.
Qed.

(** Two keys that are both present get the same index iff they are
    equal. *)
Lemma index_of_eq_iff (a b : K) (vs : list (list Q)) :
  seen key eqb a vs = true ->
  seen key eqb b vs = true ->
  index_of key eqb a vs = index_of key eqb b vs <-> eqb a b = true.
Proof.
  intros Ha Hb. split.
  - intros Heq. pose proof (index_of_key a vs Ha) as H1.
    pose proof (index_of_key b vs Hb) as H2. rewrite <- Heq in H2.
    exact (eqb_trans _ _ _ (eqb_sym _ _ H1) H2).
  - apply index_of_congr.
Qed.

Lemma dict_get_enum (k : K) (vs : list (list Q)) (n : nat) :
  dict_get eqb (enum_from key n vs) k
  = if seen key eqb k vs then Some (n + index_of key eqb k vs)%nat
    else None.
Proof.
  revert n. unfold enum_from.
  induction vs as [|v vs IH]; intros n; simpl; [reflexivity|].
  destruct (eqb (key v) k); simpl.
  - f_equal. lia.
  - rewrite IH. destruct (seen key eqb k vs); [|reflexivity].
    f_equal. lia.
Qed.

Lemma enum_from_snoc (v : list Q) (vs : list (list Q)) (n : nat) :
  enum_from key n (vs ++ [v])
  = enum_from key n vs ++ [(key v, (n + List.length vs)%nat)].
Proof.
  revert n. unfold enum_from.
  induction vs as [|w vs IH]; intros n; simpl.
  - now rewrite Nat.add_0_r.
  - f_equal. rewrite IH.
    replace (S n + List.length vs)%nat with (n + S (List.length vs))%nat by lia.
    reflexivity.
Qed.

Lemma first_seen_from_extends (vs pts : list (list Q)) :
  exists more, first_seen_from key eqb vs pts = vs ++ more.
Proof.
  revert vs. induction pts as [|p pts IH]; intros vs; simpl.
  - exists []. now rewrite app_nil_r.
  - destruct (seen key eqb (key p) vs).
    + apply IH.
    + destruct (IH (vs ++ [p])) as [more Hm]. exists (p :: more).
      rewrite Hm, <- app_assoc. reflexivity.
Qed.

Lemma first_seen_from_app (vs pts1 pts2 : list (list Q)) :
  first_seen_from key eqb vs (pts1 ++ pts2)
  = first_seen_from key eqb (first_seen_from key eqb vs pts1) pts2.
Proof.
  revert vs. induction pts1 as [|p pts1 IH]; intros vs; simpl.
  - reflexivity.
  - destruct (seen key eqb (key p) vs); apply IH.
Qed.

(** Every point processed is present afterwards. *)
Lemma first_seen_from_seen (vs pts : list (list Q)) (p : list Q) :
  In p pts -> seen key eqb (key p) (first_seen_from key eqb vs pts) = true.
Proof.
  revert vs. induction pts as [|q pts IH]; intros vs Hin; [destruct Hin|].
  simpl. destruct Hin as [->|Hin].
  - destruct (seen key eqb (key p) vs) eqn:E.
    + destruct (first_seen_from_extends vs pts) as [more ->].
      rewrite seen_app, E. reflexivity.
    + destruct (first_seen_from_extends (vs ++ [p]) pts) as [more ->].
      rewrite !seen_app. simpl. rewrite eqb_refl.
      now rewrite orb_true_r.
  - destruct (seen key eqb (key q) vs); now apply IH.
Qed.

Lemma distinct_keys_snoc (vs : list (list Q)) (p : list Q) :
  distinct_keys key eqb vs ->
  seen key eqb (key p) vs = false ->
  distinct_keys key eqb (vs ++ [p]).
Proof.
  intros Hd Hp j Hj. rewrite length_app in Hj. simpl in Hj.
  destruct (Nat.lt_ge_cases j (List.length vs)) as [Hlt|Hge].
  - rewrite app_nth1 by assumption.
    rewrite index_of_app_seen; [now apply Hd|].
    apply seen_self. now apply nth_In.
  - assert (j = List.length vs) as -> by lia.
    rewrite nth_middle. rewrite index_of_app_unseen by assumption.
    simpl. rewrite eqb_refl. lia.
Qed.

Lemma first_seen_from_distinct (vs pts : list (list Q)) :
  distinct_keys key eqb vs ->
  distinct_keys key eqb (first_seen_from key eqb vs pts).
Proof.
  revert vs. induction pts as [|p pts IH]; intros vs Hd; simpl; [exact Hd|].
  destruct (seen key eqb (key p) vs) eqn:E; apply IH; [exact Hd|].
  now apply distinct_keys_snoc.
Qed.

(** One deduplication step on a state whose dict numbers its vertices. *)
Lemma intern_spec (v : list Q) (vs : list (list Q)) :
  let vs' := first_seen_from key eqb vs [v] in
  intern key eqb v (vs, enum_from key 0 vs)
  = (index_of key eqb (key v) vs', (vs', enum_from key 0 vs')).
Proof.
  unfold intern. simpl. rewrite dict_get_enum.
  destruct (seen key eqb (key v) vs) eqn:E.
  - reflexivity.
  - rewrite index_of_app_unseen by assumption. simpl.
    rewrite eqb_refl, Nat.add_0_r, enum_from_snoc. reflexivity.
Qed.

(** A run of deduplication steps: the vertex list grows by the first-seen
    points, and every point gets the position of its key in the final
    list. *)
Lemma intern_all_spec (pts vs : list (list Q)) :
  let vs' := first_seen_from key eqb vs pts in
  intern_all key eqb pts (vs, enum_from key 0 vs)
  = (map (fun p => index_of key eqb (key p) vs') pts,
     (vs', enum_from key 0 vs')).
Proof.
  revert vs. induction pts as [|p pts IH]; intros vs; [reflexivity|].
  cbv zeta. cbn [intern_all]. rewrite intern_spec.
  pose proof (first_seen_from_app vs [p] pts) as Happ.
  change ([p] ++ pts) with (p :: pts) in Happ. rewrite Happ.
  set (vs1 := first_seen_from key eqb vs [p]).
  specialize (IH vs1). cbv zeta in IH. rewrite IH.
  cbn [map]. f_equal. f_equal.
  destruct (first_seen_from_extends vs1 pts) as [more ->].
  symmetry. apply index_of_app_seen.
  apply first_seen_from_seen. now left.
Qed.

End FirstSeenFacts.

(** *** Key equality *)

Lemma key_eqb_refl (k : Key) : key_eqb k k = true.
Proof.
  destruct k as [[a b] c]. simpl. now rewrite !Qeq_bool_refl.
Qed.

Lemma key_eqb_sym (k1 k2 : Key) : key_eqb k1 k2 = true -> key_eqb k2 k1 = true.
Proof.
  destruct k1 as [[a1 b1] c1], k2 as [[a2 b2] c2]. simpl.
  rewrite !andb_true_iff. intros [[Ha Hb] Hc].
  repeat split; now apply Qeq_bool_sym.
Qed.

Lemma key_eqb_trans (k1 k2 k3 : Key) :
  key_eqb k1 k2 = true -> key_eqb k2 k3 = true -> key_eqb k1 k3 = true.
Proof.
  destruct k1 as [[a1 b1] c1], k2 as [[a2 b2] c2], k3 as [[a3 b3] c3]. simpl.
  rewrite !andb_true_iff. intros [[Ha Hb] Hc] [[Ha' Hb'] Hc'].
  repeat split; eapply Qeq_bool_trans; eassumption.
Qed.

Lemma tuple_eqb_refl (t : list Q) : tuple_eqb t t = true.
Proof.
  induction t as [|a t IH]; simpl; [reflexivity|].
  now rewrite Qeq_bool_refl, IH.
Qed.

Lemma tuple_eqb_sym (t1 t2 : list Q) :
  tuple_eqb t1 t2 = true -> tuple_eqb t2 t1 = true.
Proof.
  revert t2. induction t1 as [|a t1 IH]; intros [|b t2]; simpl;
    try discriminate; [reflexivity|].
  rewrite !andb_true_iff. intros [Ha Ht]. split.
  - now apply Qeq_bool_sym.
  - now apply IH.
Qed.

Lemma tuple_eqb_trans (t1 t2 t3 : list Q) :
  tuple_eqb t1 t2 = true -> tuple_eqb t2 t3 = true -> tuple_eqb t1 t3 = true.
Proof.
  revert t2 t3.
  induction t1 as [|a t1 IH]; intros [|b t2] [|c t3]; simpl;
    try discriminate; [reflexivity|].
  rewrite !andb_true_iff. intros [Ha Ht] [Hb Ht']. split.
  - eapply Qeq_bool_trans; eassumption.
  - eapply IH; eassumption.
Qed.

(** *** The DXF parser on first-seen numbering *)

Lemma add_vertex_intern (x y z : Q) (st : DxfState) :
  add_vertex x y z st =
  let '(i, (vs, m)) :=
    intern key3 key_eqb [x; y; z] (dxf_vertices st, vertex_map st) in
  (i, mkDxfState vs (dxf_faces st) (dxf_edges st) m).
Proof.
  unfold add_vertex, intern. cbn [fst snd].
  change (key3 [x; y; z]) with (snap_key x y z).
  destruct (dict_get key_eqb (vertex_map st) (snap_key x y z)).
  - destruct st; reflexivity.
  - reflexivity.
Qed.

Lemma add_vertices_intern (pts : list Vec3) (st : DxfState) :
  add_vertices pts st =
  let '(is_, (vs, m)) :=
    intern_all key3 key_eqb (map vec_list pts)
      (dxf_vertices st, vertex_map st) in
  (is_, mkDxfState vs (dxf_faces st) (dxf_edges st) m).
Proof.
  revert st. induction pts as [|p pts IH]; intros st.
  - destruct st; reflexivity.
  - cbn [add_vertices map intern_all]. rewrite add_vertex_intern.
    change [vx p; vy p; vz p] with (vec_list p).
    destruct (intern key3 key_eqb (vec_list p) (dxf_vertices st, vertex_map st))
      as [i [vs m]].
    rewrite IH. cbn [dxf_vertices vertex_map dxf_faces dxf_edges].
    destruct (intern_all key3 key_eqb (map vec_list pts) (vs, m))
      as [is_ [vs' m']].
    reflexivity.
Qed.

(** A run of [add_vertex] calls from a state whose [vertex_map] numbers
    its vertices. *)
Lemma add_vertices_spec (pts : list Vec3) (st : DxfState) :
  dxf_inv st ->
  let V := first_seen_from key3 key_eqb (dxf_vertices st) (map vec_list pts) in
  add_vertices pts st
  = (map (resolve V) pts,
     mkDxfState V (dxf_faces st) (dxf_edges st) (enum_from key3 0 V)).
Proof.
  intros Hinv V. rewrite add_vertices_intern. rewrite Hinv.
  pose proof (intern_all_spec Key key3 key_eqb key_eqb_refl
                (map vec_list pts) (dxf_vertices st)) as H.
  cbv zeta in H. rewrite H. fold V. rewrite map_map. reflexivity.
Qed.

Lemma add_vertex_spec (p : Vec3) (st : DxfState) :
  dxf_inv st ->
  let V := first_seen_from key3 key_eqb (dxf_vertices st) [vec_list p] in
  add_vertex (vx p) (vy p) (vz p) st
  = (resolve V p,
     mkDxfState V (dxf_faces st) (dxf_edges st) (enum_from key3 0 V)).
Proof.
  intros Hinv V.
  pose proof (add_vertices_spec [p] st Hinv) as H. cbv zeta in H.
  cbn [add_vertices map] in H.
  destruct (add_vertex (vx p) (vy p) (vz p) st) as [i st1].
  inversion H. reflexivity.
Qed.

Section DxfFacts.

Variable pi : Q.
Variables cos sin : Q -> Q.

(** Every entity is a run of [add_vertex] calls on its points, followed
    by appending its edges and faces over the indices returned. *)
Lemma parse_entity_run (st : DxfState) (entity : Entity) :
  parse_entity pi cos sin st entity =
  let '(indices, st1) := add_vertices (entity_points pi cos sin entity) st in
  mkDxfState (dxf_vertices st1)
    (dxf_faces st1 ++ entity_faces entity indices)
    (dxf_edges st1 ++ entity_edges entity indices)
    (vertex_map st1).
Proof.
  destruct entity as [p1 p2|pts closed|pts closed|p0 p1 p2|c r|ty];
    cbn [parse_entity entity_points entity_edges entity_faces].
  - cbn [add_vertices].
    destruct (add_vertex (vx p1) (vy p1) (vz p1) st) as [i1 st1].
    destruct (add_vertex (vx p2) (vy p2) (vz p2) st1) as [i2 st2].
    unfold edges_append. cbn [nth]. now rewrite app_nil_r.
  - destruct (add_vertices _ st) as [indices st1].
    unfold edges_append. now rewrite app_nil_r.
  - destruct (add_vertices _ st) as [indices st1].
    unfold edges_append. now rewrite app_nil_r.
  - destruct (add_vertices [p0; p1; p2] st) as [indices st1].
    unfold faces_append. now rewrite app_nil_r.
  - destruct (add_vertices _ st) as [indices st1].
    unfold edges_append. now rewrite app_nil_r.
  - cbn [add_vertices]. destruct st. cbn. now rewrite !app_nil_r.
Qed.

Lemma parse_entity_spec (st : DxfState) (entity : Entity) :
  dxf_inv st ->
  let pts := entity_points pi cos sin entity in
  let V := first_seen_from key3 key_eqb (dxf_vertices st)
             (map vec_list pts) in
  parse_entity pi cos sin st entity
  = mkDxfState V
      (dxf_faces st ++ entity_faces entity (map (resolve V) pts))
      (dxf_edges st ++ entity_edges entity (map (resolve V) pts))
      (enum_from key3 0 V).
Proof.
  intros Hinv pts V. rewrite parse_entity_run.
  fold pts. pose proof (add_vertices_spec pts st Hinv) as H.
  cbv zeta in H. rewrite H. reflexivity.
Qed.

Lemma resolve_stable (V more : list (list Q)) (p : Vec3) :
  seen key3 key_eqb (key3 (vec_list p)) V = true ->
  resolve (V ++ more) p = resolve V p.
Proof.
  intros H. unfold resolve. now apply index_of_app_seen.
Qed.

Lemma resolve_run_stable (vs more : list (list Q)) (pts : list Vec3) :
  let V := first_seen_from key3 key_eqb vs (map vec_list pts) in
  map (resolve (V ++ more)) pts = map (resolve V) pts.
Proof.
  intros V. apply map_ext_in. intros p Hin. apply resolve_stable.
  apply first_seen_from_seen; [apply key_eqb_refl|].
  now apply in_map.
Qed.

(** The loop [for entity in msp] from a state whose [vertex_map] numbers
    its vertices. *)
Lemma parse_entities_spec (msp : list Entity) (st : DxfState) :
  dxf_inv st ->
  let V := first_seen_from key3 key_eqb (dxf_vertices st)
             (dxf_points pi cos sin msp) in
  let indices e := map (resolve V) (entity_points pi cos sin e) in
  fold_left (parse_entity pi cos sin) msp st
  = mkDxfState V
      (dxf_faces st ++ flat_map (fun e => entity_faces e (indices e)) msp)
      (dxf_edges st ++ flat_map (fun e => entity_edges e (indices e)) msp)
      (enum_from key3 0 V).
Proof.
  revert st. induction msp as [|e msp IH]; intros st Hinv.
  - cbv zeta. unfold dxf_points.
    cbn [flat_map map first_seen_from fold_left]. rewrite !app_nil_r.
    unfold dxf_inv in Hinv. rewrite <- Hinv. destruct st; reflexivity.
  - cbv zeta. cbn [fold_left]. rewrite (parse_entity_spec st e Hinv).
    set (V1 := first_seen_from key3 key_eqb (dxf_vertices st)
                 (map vec_list (entity_points pi cos sin e))).
    set (st1 := mkDxfState V1 _ _ _).
    assert (Hinv1 : dxf_inv st1) by reflexivity.
    specialize (IH st1 Hinv1). cbv zeta in IH. rewrite IH.
    cbn [dxf_vertices dxf_faces dxf_edges st1].
    assert (HV : first_seen_from key3 key_eqb (dxf_vertices st)
                   (dxf_points pi cos sin (e :: msp))
                 = first_seen_from key3 key_eqb V1
                     (dxf_points pi cos sin msp)).
    { unfold dxf_points. cbn [flat_map]. rewrite map_app.
      now rewrite first_seen_from_app. }
    rewrite HV.
    set (V := first_seen_from key3 key_eqb V1 (dxf_points pi cos sin msp)).
    assert (Hidx : map (resolve V1) (entity_points pi cos sin e)
                   = map (resolve V) (entity_points pi cos sin e)).
    { destruct (first_seen_from_extends Key key3 key_eqb V1
                  (dxf_points pi cos sin msp)) as [more Hmore].
      unfold V. rewrite Hmore. symmetry. apply resolve_run_stable. }
    rewrite Hidx. cbn [flat_map]. rewrite <- !app_assoc. reflexivity.
Qed.

Lemma parse_dxf_spec (doc : DxfDoc) :
  _parse_dxf pi cos sin doc = dxf_spec pi cos sin doc.
Proof.
  unfold _parse_dxf, dxf_spec.
  pose proof (parse_entities_spec (modelspace doc) dxf_init
                (eq_refl : dxf_inv dxf_init)) as H.
  cbv zeta in H. rewrite H. reflexivity.
Qed.

End DxfFacts.

(** *** The STL parser on first-seen numbering *)

Lemma stl_triangle_vertices_intern (triangle : list (list Q)) (st : StlState) :
  stl_triangle_vertices triangle st =
  let '(is_, (vs, m)) :=
    intern_all tuple tuple_eqb triangle (stl_vertices st, stl_vertex_map st) in
  (is_, mkStlState vs (stl_faces st) m).
Proof.
  revert st. induction triangle as [|v triangle IH]; intros st.
  - destruct st; reflexivity.
  - cbn [stl_triangle_vertices intern_all].
    assert (Hv : stl_vertex v st =
                 let '(i, (vs, m)) :=
                   intern tuple tuple_eqb v (stl_vertices st, stl_vertex_map st) in
                 (i, mkStlState vs (stl_faces st) m)).
    { unfold stl_vertex, intern. cbn [fst snd].
      destruct (dict_get tuple_eqb (stl_vertex_map st) (tuple v));
        [destruct st|]; reflexivity. }
    rewrite Hv.
    destruct (intern tuple tuple_eqb v (stl_vertices st, stl_vertex_map st))
      as [i [vs m]].
    rewrite IH. cbn [stl_vertices stl_vertex_map stl_faces].
    destruct (intern_all tuple tuple_eqb triangle (vs, m)) as [is_ [vs' m']].
    reflexivity.
Qed.

Lemma stl_triangle_spec (st : StlState) (triangle : list (list Q)) :
  stl_vertex_map st = enum_from tuple 0 (stl_vertices st) ->
  let V := first_seen_from tuple tuple_eqb (stl_vertices st) triangle in
  stl_triangle st triangle
  = mkStlState V
      (stl_faces st
       ++ [map (fun v => index_of tuple tuple_eqb (tuple v) V) triangle])
      (enum_from tuple 0 V).
Proof.
  intros Hinv V. unfold stl_triangle.
  rewrite stl_triangle_vertices_intern, Hinv.
  pose proof (intern_all_spec (list Q) tuple tuple_eqb tuple_eqb_refl
                triangle (stl_vertices st)) as H.
  cbv zeta in H. rewrite H. reflexivity.
Qed.

Lemma stl_triangles_spec (vectors : list (list (list Q))) (st : StlState) :
  stl_vertex_map st = enum_from tuple 0 (stl_vertices st) ->
  let V := first_seen_from tuple tuple_eqb (stl_vertices st)
             (List.concat vectors) in
  fold_left stl_triangle vectors st
  = mkStlState V
      (stl_faces st
       ++ map (map (fun v => index_of tuple tuple_eqb (tuple v) V)) vectors)
      (enum_from tuple 0 V).
Proof.
  revert st. induction vectors as [|t vectors IH]; intros st Hinv.
  - cbv zeta. cbn [List.concat map first_seen_from fold_left].
    rewrite app_nil_r, <- Hinv. destruct st; reflexivity.
  - cbv zeta. cbn [fold_left]. rewrite (stl_triangle_spec st t Hinv).
    set (V1 := first_seen_from tuple tuple_eqb (stl_vertices st) t).
    set (st1 := mkStlState V1 _ _).
    specialize (IH st1 eq_refl). cbv zeta in IH. rewrite IH.
    cbn [stl_vertices stl_faces st1 List.concat map].
    rewrite first_seen_from_app. fold V1.
    set (V := first_seen_from tuple tuple_eqb V1 (List.concat vectors)).
    assert (Hidx : map (fun v => index_of tuple tuple_eqb (tuple v) V1) t
                   = map (fun v => index_of tuple tuple_eqb (tuple v) V) t).
    { destruct (first_seen_from_extends (list Q) tuple tuple_eqb V1
                  (List.concat vectors)) as [more Hmore].
      unfold V. rewrite Hmore. apply map_ext_in. intros v Hin.
      symmetry. apply index_of_app_seen.
      apply first_seen_from_seen; [apply tuple_eqb_refl | exact Hin]. }
    rewrite Hidx, <- app_assoc. reflexivity.
Qed.

Lemma parse_stl_spec (vectors : list (list (list Q))) :
  _parse_stl vectors = stl_spec vectors.
Proof.
  unfold _parse_stl, stl_spec.
  pose proof (stl_triangles_spec vectors stl_init eq_refl) as H.
  cbv zeta in H. rewrite H. reflexivity.
Qed.

(** *** Rounding and snapping *)





Lemma epsilon_neq_0 : ~ epsilon == 0.
Proof. discriminate. Qed.

Lemma snap_eq_iff (a b : Q) :
  Qeq_bool (snap a) (snap b) = true <-> same_cell a b.
Proof.
  unfold snap, same_cell. rewrite Qeq_bool_iff.
  rewrite (Qmult_inj_r _ _ _ epsilon_neq_0). apply inject_Z_injective.
Qed.

Lemma snap_key_eq_iff (p q : Vec3) :
  key_eqb (key3 (vec_list p)) (key3 (vec_list q)) = true <->
  same_cell (vx p) (vx q) /\ same_cell (vy p) (vy q) /\ same_cell (vz p) (vz q).
Proof.
  unfold key3, vec_list, snap_key, key_eqb. cbn [nth].
  rewrite !andb_true_iff, !snap_eq_iff. tauto.
Qed.




(** *** Tolerance merge *)

Lemma dxf_inv_init : dxf_inv dxf_init.
Proof. reflexivity. Qed.

Lemma later_refl (st : DxfState) : dxf_inv st -> later st st.
Proof.
  intros H. split; [exact H|]. exists []. now rewrite app_nil_r.
Qed.

Lemma later_trans (st1 st2 st3 : DxfState) :
  later st1 st2 -> later st2 st3 -> later st1 st3.
Proof.
  intros [_ [m1 H1]] [Hinv [m2 H2]]. split; [exact Hinv|].
  exists (m1 ++ m2). now rewrite H2, H1, app_assoc.
Qed.

(** The states of a parse are later states of one another: [add_vertex],
    a run of them, and a whole entity keep the numbering and only append
    vertices. *)
Lemma add_vertex_later (p : Vec3) (st : DxfState) :
  dxf_inv st -> later st (snd (add_vertex (vx p) (vy p) (vz p) st)).
Proof.
  intros Hinv. rewrite (add_vertex_spec p st Hinv). cbn [snd].
  split; [reflexivity|]. cbn [dxf_vertices].
  apply first_seen_from_extends.
Qed.

Lemma parse_entity_later (pi : Q) (cos sin : Q -> Q) (st : DxfState)
  (entity : Entity) :
  dxf_inv st -> later st (parse_entity pi cos sin st entity).
Proof.
  intros Hinv. rewrite (parse_entity_spec pi cos sin st entity Hinv).
  split; [reflexivity|]. cbn [dxf_vertices].
  apply first_seen_from_extends.
Qed.


(** In a parsed drawing two points of the model space have the same index
    iff they are snapped to the same multiple of epsilon on every axis. *)
Lemma parsed_points_same_index_iff (pi : Q) (cos sin : Q -> Q) (doc : DxfDoc)
  (p q : Vec3) :
  In p (flat_map (entity_points pi cos sin) (modelspace doc)) ->
  In q (flat_map (entity_points pi cos sin) (modelspace doc)) ->
  let V := vertices (_parse_dxf pi cos sin doc) in
  resolve V p = resolve V q <->
  same_cell (vx p) (vx q) /\ same_cell (vy p) (vy q) /\
  same_cell (vz p) (vz q).
Proof.
  intros Hp Hq V. rewrite <- snap_key_eq_iff.
  unfold V. rewrite parse_dxf_spec. unfold dxf_spec, resolve. cbn [vertices].
  apply (index_of_eq_iff Key key3 key_eqb key_eqb_sym key_eqb_trans).
  - apply first_seen_from_seen; [apply key_eqb_refl|].
    unfold dxf_points. now apply in_map.
  - apply first_seen_from_seen; [apply key_eqb_refl|].
    unfold dxf_points. now apply in_map.
Qed.



(** *** Circles *)

Lemma nth_map_seq {A : Type} (f : nat -> A) (n i : nat) (d : A) :
  (i < n)%nat -> nth i (map f (seq 0 n)) d = f i.
Proof.
  intros Hi. rewrite (nth_indep _ d (f 0%nat)).
  - rewrite map_nth. now rewrite seq_nth.
  - now rewrite length_map, length_seq.
Qed.

Lemma first_seen_from_length {K : Type} (key : list Q -> K)
  (eqb : K -> K -> bool) (pts vs : list (list Q)) :
  (List.length (first_seen_from key eqb vs pts)
   <= List.length vs + List.length pts)%nat.
Proof.
  revert vs. induction pts as [|p pts IH]; intros vs; simpl; [lia|].
  destruct (seen key eqb (key p) vs).
  - specialize (IH vs). lia.
  - specialize (IH (vs ++ [p])). rewrite length_app in IH. simpl in IH. lia.
Qed.

(** Points that all have a key already present add no vertex. *)
Lemma first_seen_from_all_seen {K : Type} (key : list Q -> K)
  (eqb : K -> K -> bool) (pts vs : list (list Q)) :
  (forall p, In p pts -> seen key eqb (key p) vs = true) ->
  first_seen_from key eqb vs pts = vs.
Proof.
  induction pts as [|p pts IH]; intros H; simpl; [reflexivity|].
  rewrite (H p (or_introl eq_refl)). apply IH.
  intros p' Hin. apply H. now right.
Qed.

Lemma first_seen_from_nil_cons {K : Type} (key : list Q -> K)
  (eqb : K -> K -> bool) (p : list Q) (pts : list (list Q)) :
  first_seen_from key eqb [] (p :: pts) = first_seen_from key eqb [p] pts.
Proof. reflexivity. Qed.

Lemma py_round_comp (a b : Q) : a == b -> py_round a = py_round b.
Proof.
  intros H. unfold py_round, Qlt_bool.
  rewrite (Qfloor_comp _ _ H).
  assert (Hr : a - inject_Z (Qfloor b) == b - inject_Z (Qfloor b))
    by now rewrite H.
  rewrite (Qleb_comp _ _ (Qeq_refl (1 # 2)) _ _ Hr).
  rewrite (Qleb_comp _ _ Hr _ _ (Qeq_refl (1 # 2))).
  reflexivity.
Qed.

Section CircleFacts.

Variable pi : Q.
Variables cos sin : Q -> Q.

(** A circle of radius 0 on an empty state adds one vertex: its 32
    points have the key of the center, whatever [cos] and [sin]
    return. *)
Lemma circle_radius_zero (center : Vec3) :
  List.length
    (dxf_vertices (parse_entity pi cos sin dxf_init (CIRCLE center 0)))
  = 1%nat.
Proof.
  pose proof (parse_entity_spec pi cos sin dxf_init (CIRCLE center 0)
                dxf_inv_init) as H.
  cbv zeta in H. rewrite H. clear H.
  cbn [dxf_vertices entity_points dxf_init].
  change segments with (S 31).
  change (seq 0 (S 31)) with (0%nat :: seq 1 31).
  rewrite !map_cons.
  rewrite (first_seen_from_nil_cons key3 key_eqb).
  rewrite first_seen_from_all_seen; [reflexivity|].
  intros v Hin. apply in_map_iff in Hin. destruct Hin as [p [<- Hin]].
  apply in_map_iff in Hin. destruct Hin as [i [<- _]].
  cbn [seen existsb]. rewrite orb_false_r.
  apply snap_key_eq_iff.
  unfold same_cell. cbn [circle_point vx vy vz].
  repeat split; apply py_round_comp; apply Qdiv_comp; try reflexivity;
    now rewrite !Qmult_0_l.
Qed.

(** A circle drawn a second time adds no vertex. *)
Lemma circle_repeated (st : DxfState) (center : Vec3) (radius : Q) :
  dxf_inv st ->
  let st1 := parse_entity pi cos sin st (CIRCLE center radius) in
  dxf_vertices (parse_entity pi cos sin st1 (CIRCLE center radius))
  = dxf_vertices st1.
Proof.
  intros Hinv st1.
  destruct (parse_entity_later pi cos sin st (CIRCLE center radius) Hinv)
    as [Hinv1 _].
  fold st1 in Hinv1.
  pose proof (parse_entity_spec pi cos sin st1 (CIRCLE center radius) Hinv1)
    as H1.
  cbv zeta in H1. rewrite H1. cbn [dxf_vertices].
  apply first_seen_from_all_seen. intros p Hin.
  pose proof (parse_entity_spec pi cos sin st (CIRCLE center radius) Hinv)
    as H0.
  cbv zeta in H0. fold st1 in H0. rewrite H0. cbn [dxf_vertices].
  apply first_seen_from_seen; [apply key_eqb_refl | exact Hin].
Qed.

(** C8, amended.  Circle mapping.  For a CIRCLE entity the parser passes
    the 32 points at the angles [2*pi*i/32] around the center, at the
    center's z, through [add_vertex]: the vertex list grows by the points
    whose key was not seen before, at most 32 of them; every point gets
    the index of a vertex with its key; and exactly 32 edges are
    appended, edge [i] going from the index of point [i] to the index of
    point [(i+1) mod 32]; faces are untouched. *)
Theorem circle_mapping (st : DxfState) (center : Vec3) (radius : Q) :
  dxf_inv st ->
  let point := circle_point pi cos sin center radius in
  let st' := parse_entity pi cos sin st (CIRCLE center radius) in
  let V := dxf_vertices st' in
  (forall i,
      point i
      = mkVec3
          (vx center
           + radius * cos (2 * pi * inject_Z (Z.of_nat i) / inject_Z 32))
          (vy center
           + radius * sin (2 * pi * inject_Z (Z.of_nat i) / inject_Z 32))
          (vz center)) /\
  V = first_seen_from key3 key_eqb (dxf_vertices st)
        (map vec_list (map point (seq 0 32))) /\
  (exists new, V = dxf_vertices st ++ new /\ (List.length new <= 32)%nat) /\
  (forall i, (i < 32)%nat ->
      (resolve V (point i) < List.length V)%nat /\
      key_eqb (key3 (nth (resolve V (point i)) V []))
        (key3 (vec_list (point i))) = true) /\
  dxf_faces st' = dxf_faces st /\
  exists loop,
    dxf_edges st' = dxf_edges st ++ loop /\
    List.length loop = 32%nat /\
    forall i, (i < 32)%nat ->
      nth i loop []
      = [resolve V (point i); resolve V (point ((i + 1) mod 32))].
Proof.
  intros Hinv point st' V.
  pose proof (parse_entity_spec pi cos sin st (CIRCLE center radius) Hinv)
    as Hst.
  cbv zeta in Hst. fold st' in Hst.
  cbn [entity_points entity_edges entity_faces] in Hst.
  change (circle_point pi cos sin center radius) with point in Hst.
  change segments with 32%nat in Hst.
  assert (HV : V = first_seen_from key3 key_eqb (dxf_vertices st)
                     (map vec_list (map point (seq 0 32)))).
  { unfold V. rewrite Hst. reflexivity. }
  rewrite <- HV in Hst.
  assert (Hseen : forall i, (i < 32)%nat ->
                    seen key3 key_eqb (key3 (vec_list (point i))) V = true).
  { intros i Hi. rewrite HV.
    apply first_seen_from_seen; [apply key_eqb_refl|].
    apply in_map. apply in_map. apply in_seq. lia. }
  split; [intros i; reflexivity|]. split; [exact HV|]. split; [|split; [|split]].
  - destruct (first_seen_from_extends Key key3 key_eqb (dxf_vertices st)
                (map vec_list (map point (seq 0 32)))) as [new Hnew].
    exists new. rewrite HV. split; [exact Hnew|].
    pose proof (first_seen_from_length key3 key_eqb
                  (map vec_list (map point (seq 0 32))) (dxf_vertices st))
      as Hlen.
    rewrite Hnew, length_app, !length_map, length_seq in Hlen. lia.
  - intros i Hi. specialize (Hseen i Hi). split.
    + now apply index_of_lt.
    + now apply index_of_key.
  - rewrite Hst. cbn [dxf_faces]. now rewrite app_nil_r.
  - eexists. split; [rewrite Hst; cbn [dxf_edges]; reflexivity|].
    unfold circle_edges. split.
    + now rewrite length_map, length_seq.
    + intros i Hi. change segments with 32%nat.
      rewrite (nth_map_seq _ 32 i [] Hi).
      rewrite map_map.
      rewrite (nth_map_seq (fun j => resolve V (point j)) 32 i 0%nat Hi).
      rewrite (nth_map_seq (fun j => resolve V (point j)) 32 _ 0%nat).
      * reflexivity.
      * apply Nat.mod_upper_bound. discriminate.
Qed.

End CircleFacts.

(** C8, as stated, fails: a circle does not always add 32 vertices.  A
    circle of radius 0 in an empty drawing adds one. *)
Lemma circle_mapping_counterexample :
  ~ (forall (pi : Q) (cos sin : Q -> Q) (st : DxfState) (center : Vec3)
       (radius : Q),
        dxf_inv st ->
        List.length
          (dxf_vertices (parse_entity pi cos sin st (CIRCLE center radius)))
        = (List.length (dxf_vertices st) + 32)%nat).
Proof.
  intros H.
  specialize (H 0 (fun _ => 0) (fun _ => 0) dxf_init (mkVec3 0 0 0) 0
                dxf_inv_init).
  rewrite circle_radius_zero in H. discriminate H.
Qed.

(** *** Determinism *)

Lemma same_file_eq (f1 f2 : SourceFile) : same_file f1 f2 -> f1 = f2.
Proof.
  destruct f1, f2. unfold same_file. cbn.
  intros [-> [-> [-> [-> ->]]]]. reflexivity.
Qed.

Lemma distinct_keys_nil {K : Type} (key : list Q -> K) (eqb : K -> K -> bool) :
  distinct_keys key eqb [].
Proof. intros j Hj. simpl in Hj. lia. Qed.

(** C9.  Dedup determinism.  Parsing the same file twice gives the same
    result, and the index numbering does not depend on the dict: for both
    parsers the vertex list is the list of first-seen points in discovery
    order, no two of them with the same key, so that the vertex at
    position [j] is the one numbered [j]; and every edge and face holds,
    for each of its points, the position of the point's key in that
    list. *)
Theorem dedup_determinism (pi : Q) (cos sin : Q -> Q) (f1 f2 : SourceFile) :
  same_file f1 f2 ->
  parse pi cos sin f1 = parse pi cos sin f2 /\
  (forall doc : DxfDoc,
      _parse_dxf pi cos sin doc = dxf_spec pi cos sin doc /\
      distinct_keys key3 key_eqb (vertices (_parse_dxf pi cos sin doc))) /\
  (forall vectors : list (list (list Q)),
      _parse_stl vectors = stl_spec vectors /\
      distinct_keys tuple tuple_eqb (vertices (_parse_stl vectors))).
Proof.
  intros Hsame. split; [now rewrite (same_file_eq f1 f2 Hsame)|]. split.
  - intros doc. split; [apply parse_dxf_spec|].
    rewrite parse_dxf_spec. unfold dxf_spec. cbn [vertices].
    apply first_seen_from_distinct; [apply key_eqb_refl|].
    apply distinct_keys_nil.
  - intros vectors. split; [apply parse_stl_spec|].
    rewrite parse_stl_spec. unfold stl_spec. cbn [vertices].
    apply first_seen_from_distinct; [apply tuple_eqb_refl|].
    apply distinct_keys_nil.
Qed.

(** *** Repeated validation *)

(** Every check reads the geometry only and appends: on any validator it
    adds what it adds on a fresh one. *)

Lemma extend_fresh (self : GNDValidator) :
  extend self (GNDValidator_init (geometry self)) = self.
Proof.
  destruct self. unfold extend. cbn. now rewrite !app_nil_r.
Qed.

Lemma extend_assoc (self f1 f2 : GNDValidator) :
  extend (extend self f1) f2 = extend self (extend f1 f2).
Proof.
  unfold extend. cbn. now rewrite !app_assoc.
Qed.

Lemma point_in_polygon_geometry (s1 s2 : GNDValidator) (px py : Q) :
  geometry s1 = geometry s2 ->
  _point_in_polygon s1 px py = _point_in_polygon s2 px py.
Proof.
  intros H. unfold _point_in_polygon. now rewrite H.
Qed.

Lemma all_inside_geometry (s1 s2 : GNDValidator) (pts : list (Q * Q)) :
  geometry s1 = geometry s2 -> all_inside s1 pts = all_inside s2 pts.
Proof.
  intros H. induction pts as [|[px py] pts IH]; [reflexivity|].
  cbn [all_inside]. rewrite (point_in_polygon_geometry s1 s2 px py H).
  now rewrite IH.
Qed.

Lemma scan_x_geometry (s1 s2 : GNDValidator) (half hi y : Q) (fuel : nat) :
  geometry s1 = geometry s2 ->
  forall x, scan_x fuel s1 half x hi y = scan_x fuel s2 half x hi y.
Proof.
  intros H. induction fuel as [|fuel IH]; intros x; [reflexivity|].
  cbn [scan_x]. rewrite (all_inside_geometry s1 s2 _ H).
  destruct (Qle_bool x hi); [|reflexivity].
  destruct (all_inside s2 (test_points x y half)) as [[|]|e]; cbn [bind];
    [reflexivity | apply IH | reflexivity].
Qed.

Lemma scan_y_geometry (s1 s2 : GNDValidator) (half lo_x hi_x hi_y : Q)
  (fuel : nat) :
  geometry s1 = geometry s2 ->
  forall y, scan_y fuel s1 half lo_x hi_x y hi_y
            = scan_y fuel s2 half lo_x hi_x y hi_y.
Proof.
  intros H. induction fuel as [|fuel IH]; intros y; [reflexivity|].
  cbn [scan_y]. rewrite (scan_x_geometry s1 s2 half hi_x y _ H).
  destruct (Qle_bool y hi_y); [|reflexivity].
  destruct (scan_x _ s2 half lo_x hi_x y) as [[|]|e]; cbn [bind];
    [reflexivity | apply IH | reflexivity].
Qed.

Lemma check_empty_geometry_appends (self : GNDValidator) :
  _check_empty_geometry self
  = extend self (_check_empty_geometry (GNDValidator_init (geometry self))).
Proof.
  unfold _check_empty_geometry. cbn [geometry GNDValidator_init].
  destruct (vertices (geometry self)).
  - destruct self. unfold extend, errors_append. cbn.
    now rewrite !app_nil_r.
  - symmetry. apply extend_fresh.
Qed.

Lemma check_minimum_size_appends (self : GNDValidator) :
  _check_minimum_size self
  = (f <- _check_minimum_size (GNDValidator_init (geometry self)) ;;
     Ok (extend self f)).
Proof.
  unfold _check_minimum_size, _test_antenna_fit.
  cbn [geometry GNDValidator_init].
  destruct (vertices (geometry self)) as [|v vs].
  - cbn [bind]. now rewrite extend_fresh.
  - destruct (xy_extent (v :: vs)) as [[[[lo_x hi_x] lo_y] hi_y]|e];
      cbn [bind]; [|reflexivity].
    destruct (_ || _).
    + cbn [bind]. f_equal. destruct self. unfold extend, errors_append. cbn.
      now rewrite !app_nil_r.
    + destruct (edges (geometry self)) as [|e es].
      * cbn [bind]. now rewrite extend_fresh.
      * rewrite (scan_y_geometry self (GNDValidator_init (geometry self)))
          by reflexivity.
        destruct (scan_y _ _ _ _ _ _ _) as [[|]|e']; cbn [bind].
        -- now rewrite extend_fresh.
        -- f_equal. destruct self. unfold extend, errors_append. cbn.
           now rewrite !app_nil_r.
        -- reflexivity.
Qed.

Lemma check_planar_geometry_appends (self : GNDValidator) :
  _check_planar_geometry self
  = extend self (_check_planar_geometry (GNDValidator_init (geometry self))).
Proof.
  unfold _check_planar_geometry. cbn [geometry GNDValidator_init].
  destruct (vertices (geometry self)) as [|v vs].
  - symmetry. apply extend_fresh.
  - destruct (Qlt_bool _ _).
    + destruct self. unfold extend, suggestions_append. cbn.
      now rewrite !app_nil_r.
    + symmetry. apply extend_fresh.
Qed.

Lemma check_closed_boundaries_appends (self : GNDValidator) :
  _check_closed_boundaries self
  = extend self
      (_check_closed_boundaries (GNDValidator_init (geometry self))).
Proof.
  unfold _check_closed_boundaries. cbn [geometry GNDValidator_init].
  destruct (edges (geometry self)) as [|e es].
  - destruct (faces (geometry self)).
    + destruct self. unfold extend, warnings_append. cbn.
      now rewrite !app_nil_r.
    + symmetry. apply extend_fresh.
  - destruct (_ <? _)%nat.
    + destruct self. unfold extend, warnings_append. cbn.
      now rewrite !app_nil_r.
    + symmetry. apply extend_fresh.
Qed.

Lemma check_self_intersections_appends (self : GNDValidator) :
  _check_self_intersections self
  = extend self
      (_check_self_intersections (GNDValidator_init (geometry self))).
Proof.
  unfold _check_self_intersections. cbn [geometry GNDValidator_init].
  destruct (_ <? _)%nat.
  - destruct self. unfold extend, suggestions_append. cbn.
    now rewrite !app_nil_r.
  - symmetry. apply extend_fresh.
Qed.

Lemma appends_geometry (check : GNDValidator -> GNDValidator) :
  appends check -> forall self, geometry (check self) = geometry self.
Proof.
  intros H self. rewrite (H self). reflexivity.
Qed.

Lemma appends_compose (c1 c2 : GNDValidator -> GNDValidator) :
  appends c1 -> appends c2 -> appends (fun self => c2 (c1 self)).
Proof.
  intros H1 H2 self.
  set (fresh := GNDValidator_init (geometry self)).
  transitivity (extend (extend self (c1 fresh)) (c2 fresh)).
  - rewrite (H2 (c1 self)), (appends_geometry c1 H1 self). fold fresh.
    now rewrite (H1 self).
  - rewrite extend_assoc. f_equal.
    rewrite (H2 (c1 fresh)), (appends_geometry c1 H1 fresh). reflexivity.
Qed.

(** The three advisory checks in a row. *)
Lemma advisory_checks_appends :
  appends (fun self =>
             _check_self_intersections
               (_check_closed_boundaries (_check_planar_geometry self))).
Proof.
  apply (appends_compose
           (fun self => _check_closed_boundaries (_check_planar_geometry self))
           _check_self_intersections).
  - apply (appends_compose _check_planar_geometry _check_closed_boundaries).
    + exact check_planar_geometry_appends.
    + exact check_closed_boundaries_appends.
  - exact check_self_intersections_appends.
Qed.

(** A validation run on any validator appends what the run on a fresh
    validator for the same geometry produces. *)
Lemma is_valid_appends (self : GNDValidator) :
  is_valid self
  = (r <- is_valid (GNDValidator_init (geometry self)) ;;
     Ok ((List.length (errors self ++ errors (snd r)) =? 0)%nat,
         extend self (snd r))).
Proof.
  unfold is_valid.
  set (fresh := GNDValidator_init (geometry self)).
  set (f1 := _check_empty_geometry fresh).
  assert (Hg1 : geometry f1 = geometry self).
  { unfold f1. now destruct (check_empty_geometry_frame fresh) as [-> _]. }
  assert (H1 : _check_empty_geometry self = extend self f1)
    by apply check_empty_geometry_appends.
  rewrite H1.
  assert (H2 : _check_minimum_size (extend self f1)
               = (f <- _check_minimum_size fresh ;;
                  Ok (extend self (extend f1 f)))).
  { rewrite (check_minimum_size_appends (extend self f1)).
    change (geometry (extend self f1)) with (geometry self). fold fresh.
    destruct (_check_minimum_size fresh); cbn [bind]; [|reflexivity].
    now rewrite extend_assoc. }
  assert (H3 : _check_minimum_size f1
               = (f <- _check_minimum_size fresh ;; Ok (extend f1 f))).
  { rewrite (check_minimum_size_appends f1), Hg1. reflexivity. }
  rewrite H2, H3.
  destruct (_check_minimum_size fresh) as [f2|e]; cbn [bind]; [|reflexivity].
  set (s2 := extend f1 f2).
  assert (Hg2 : geometry s2 = geometry self) by exact Hg1.
  rewrite (advisory_checks_appends (extend self s2)).
  rewrite (advisory_checks_appends s2).
  change (geometry (extend self s2)) with (geometry self).
  rewrite Hg2. fold fresh. cbn [snd].
  rewrite extend_assoc. reflexivity.
Qed.

(** C7, amended.  Idempotence of validation.  Two validators freshly
    constructed for the same Geometry and run once each produce the same
    outcome: the same valid flag and the same errors, warnings and
    suggestions, in the same order.  More generally the messages a run
    adds depend on the Geometry only: two runs for the same Geometry both
    raise the same exception or add the same errors, warnings and
    suggestions in the same order. *)
Theorem validation_idempotence (v1 v2 : GNDValidator) :
  geometry v1 = geometry v2 ->
  (is_fresh v1 -> is_fresh v2 -> same_outcome (get_report v1) (get_report v2)) /\
  match is_valid v1, is_valid v2 with
  | Ok (_, s1), Ok (_, s2) =>
      exists e w s, appended v1 s1 e w s /\ appended v2 s2 e w s
  | Err e1, Err e2 => e1 = e2
  | _, _ => False
  end.
Proof.
  intros Hg. split.
  - intros [He1 [Hw1 Hs1]] [He2 [Hw2 Hs2]].
    assert (v1 = v2) as <-.
    { destruct v1, v2. cbn in *. congruence. }
    unfold same_outcome.
    destruct (get_report v1) as [[r s]|e]; reflexivity.
  - rewrite (is_valid_appends v1), (is_valid_appends v2), <- Hg.
    destruct (is_valid (GNDValidator_init (geometry v1))) as [[b f]|e];
      cbn [bind snd]; [|reflexivity].
    exists (errors f), (warnings f), (suggestions f).
    split; repeat split; reflexivity.
Qed.

(** C7, as stated, fails when the two runs are on one validator object:
    [is_valid] appends to the lists the validator already holds, and the
    report holds those lists, not copies.  On the empty geometry the first
    report reads one error; the second run reads two, and so does the first
    report from then on. *)
Lemma validation_idempotence_counterexample :
  exists (r1 r2 : Report) (v1 v2 : GNDValidator),
    get_report (GNDValidator_init Geometry_new) = Ok (r1, v1) /\
    get_report v1 = Ok (r2, v2) /\
    view_errors (read_report r1 v1) = [msg_empty] /\
    view_errors (read_report r2 v2) = [msg_empty; msg_empty] /\
    view_errors (read_report r1 v2) = [msg_empty; msg_empty] /\
    read_report r1 v1 <> read_report r2 v2 /\
    read_report r1 v1 <> read_report r1 v2.
Proof.
  eexists _, _, _, _.
  split; [reflexivity|]. split; [reflexivity|].
  repeat split; try reflexivity; discriminate.
Qed.

(* ===================================================================== *)
(** ** The properties on sample inputs                                    *)
(* ===================================================================== *)



(** A DXF file with a closed square of side 20: the report is not valid
    and the load raises with the size error. *)
Lemma load_failure_on_invalid_witness :
  let f := dxf_file "gnd.dxf" (square_dxf 20) in
  let pi := 0 in
  let cos := fun _ : Q => 1 in
  let sin := fun _ : Q => 0 in
  exists (g : Geometry) (r : Report) (v' : GNDValidator),
    parse pi cos sin f = Ok g /\
    get_report (GNDValidator_init g) = Ok (r, v') /\
    valid r = false /\
    load pi cos sin f
    = Err (Raise Exception
             ("Failed to load GND file: Invalid geometry: "
              ++ msg_too_small 20 20 25)).
Proof.
  cbv zeta.
  eexists _, _, _.
  split; [vm_compute; reflexivity|].
  split; [vm_compute; reflexivity|].
  split; [reflexivity|].
  refine (eq_trans
            (proj1 (load_failure_on_invalid 0 (fun _ => 1) (fun _ => 0)
                      (dxf_file "gnd.dxf" (square_dxf 20)) _ _ _ _ _) _) _).
  - vm_compute. reflexivity.
  - vm_compute. reflexivity.
  - reflexivity.
  - vm_compute. reflexivity.
Defined.



(** The empty geometry. *)
Lemma empty_geometry_handling_witness :
  let self := GNDValidator_init Geometry_new in
  vertices (geometry self) = [] /\
  calculate_bounds (geometry self) = Ok None /\
  exists (r : Report) (self' : GNDValidator),
    get_report self = Ok (r, self') /\
    valid r = false /\
    deref self' (report_errors r) = [msg_empty].
Proof.
  cbv zeta.
  destruct (empty_geometry_handling (GNDValidator_init Geometry_new) eq_refl)
    as [H [_ [_ [_ Hb]]]].
  split; [reflexivity|]. split; [exact Hb|]. exact H.
Defined.

(** Two fresh validators for the same square. *)
Lemma validation_idempotence_witness :
  let v := GNDValidator_init (square 40) in
  geometry v = geometry v /\ is_fresh v /\
  same_outcome (get_report v) (get_report v).
Proof.
  cbv zeta.
  assert (Hf : is_fresh (GNDValidator_init (square 40)))
    by (repeat split; reflexivity).
  split; [reflexivity|]. split; [exact Hf|].
  exact (proj1 (validation_idempotence (GNDValidator_init (square 40))
                  (GNDValidator_init (square 40)) eq_refl) Hf Hf).
Defined.

(** A circle in an empty drawing: 32 edges are appended. *)
Lemma circle_mapping_witness :
  let pi := 355 # 113 in
  let cos := fun _ : Q => 1 in
  let sin := fun _ : Q => 0 in
  let st' := parse_entity pi cos sin dxf_init (CIRCLE (mkVec3 0 0 0) 10) in
  dxf_inv dxf_init /\
  exists loop,
    dxf_edges st' = dxf_edges dxf_init ++ loop /\ List.length loop = 32%nat.
Proof.
  cbv zeta. split; [exact dxf_inv_init|].
  destruct (circle_mapping (355 # 113) (fun _ => 1) (fun _ => 0) dxf_init
              (mkVec3 0 0 0) 10 dxf_inv_init)
    as [_ [_ [_ [_ [_ [loop [He [Hl _]]]]]]]].
  exists loop. split; assumption.
Defined.

(** The same DXF file parsed twice. *)
Lemma dedup_determinism_witness :
  let f := dxf_file "gnd.dxf" (square_dxf 40) in
  let pi := 0 in
  let cos := fun _ : Q => 1 in
  let sin := fun _ : Q => 0 in
  same_file f f /\ parse pi cos sin f = parse pi cos sin f.
Proof.
  cbv zeta.
  assert (Hs : same_file (dxf_file "gnd.dxf" (square_dxf 40))
                 (dxf_file "gnd.dxf" (square_dxf 40))).
  { repeat split. }
  split; [exact Hs|].
  exact (proj1 (dedup_determinism 0 (fun _ => 1) (fun _ => 0) _ _ Hs)).
Defined.

(** A VBScript file never loads. *)
Lemma vbs_never_loads_witness :
  let f := vbs_file "gnd.vbs" "Dim oProject" in
  let pi := 0 in
  let cos := fun _ : Q => 1 in
  let sin := fun _ : Q => 0 in
  format_of f = ".vbs" /\
  forall res : LoadResult, load pi cos sin f <> Ok res.
Proof.
  cbv zeta. split; [reflexivity|].
  exact (proj2 (vbs_never_loads 0 (fun _ => 1) (fun _ => 0)
                  (vbs_file "gnd.vbs" "Dim oProject") eq_refl)).
Defined.

(** The sample cases of the specification. *)

Example bounds_square_30 :
  exists b : Bounds,
    calculate_bounds (square 30) = Ok (Some b) /\
    width b == 30 /\ height b == 30 /\ depth b == 0 /\
    Forall2 Qeq (center b) [15; 15; 0].
Proof.
  eexists. split; [reflexivity|]. cbn.
  repeat split; try reflexivity. repeat constructor; reflexivity.
Qed.

Example square_20_rejected :
  exists (r : Report) (v : GNDValidator),
    get_report (GNDValidator_init (square 20)) = Ok (r, v) /\
    valid r = false /\
    deref v (report_errors r) = [msg_too_small 20 20 25].
Proof.
  eexists _, _. split; [reflexivity|]. split; reflexivity.
Qed.

Example square_40_accepted :
  exists (r : Report) (v : GNDValidator),
    get_report (GNDValidator_init (square 40)) = Ok (r, v) /\
    valid r = true /\
    deref v (report_errors r) = [].
Proof.
  eexists _, _. split; [vm_compute; reflexivity|]. split; reflexivity.
Qed.

Example plus_shape_rejected :
  exists (r : Report) (v : GNDValidator),
    get_report (GNDValidator_init plus_shape) = Ok (r, v) /\
    valid r = false /\
    deref v (report_errors r) = [msg_cannot_fit 60 60 25].
Proof.
  eexists _, _. split; [vm_compute; reflexivity|]. split; reflexivity.
Qed.

Example square_dxf_loads :
  exists res : LoadResult,
    load 0 (fun _ => 1) (fun _ => 0) (dxf_file "gnd.dxf" (square_dxf 40))
    = Ok res /\
    vertices (res_geometry res) = vertices (square 40) /\
    edges (res_geometry res) = edges (square 40) /\
    view_valid (validation res) = true.
Proof.
  eexists. split; [vm_compute; reflexivity|]. repeat split.
Qed.

(* ===================================================================== *)
(** ** Further properties of the parsers, the validator and the loader    *)
(* ===================================================================== *)

(** *** Indices refer to vertices *)

Lemma add_vertices_length (pts : list Vec3) (st : DxfState) :
  List.length (fst (add_vertices pts st)) = List.length pts.
Proof.
  revert st. induction pts as [|p pts IH]; intros st; [reflexivity|].
  cbn [add_vertices].
  destruct (add_vertex (vx p) (vy p) (vz p) st) as [i st1].
  specialize (IH st1). destruct (add_vertices pts st1) as [is_ st2].
  cbn [fst List.length] in *. now rewrite IH.
Qed.

Lemma consecutive_in (indices : list nat) (e : list nat) (i : nat) :
  In e (consecutive indices) -> In i e -> In i indices.
Proof.
  induction indices as [|a [|b rest] IH]; cbn [consecutive]; try contradiction.
  intros [<-|He] Hi.
  - destruct Hi as [<-|[<-|[]]]; [now left | right; now left].
  - right. now apply IH.
Qed.

Lemma last_in (l : list nat) (a : nat) : In (last l a) (a :: l).
Proof.
  induction l as [|b l IH]; [now left|].
  destruct l as [|c l]; [right; now left|].
  change (last (b :: c :: l) a) with (last (c :: l) a).
  destruct IH as [H|H]; [left; exact H | right; right; exact H].
Qed.

Lemma polyline_edges_in (indices : list nat) (closed : bool) (e : list nat)
  (i : nat) :
  In e (polyline_edges indices closed) -> In i e -> In i indices.
Proof.
  unfold polyline_edges. intros He Hi. apply in_app_or in He.
  destruct He as [He|He]; [eapply consecutive_in; eassumption|].
  destruct closed; [|destruct He].
  destruct indices as [|first rest]; [destruct He|].
  destruct He as [<-|[]].
  destruct Hi as [<-|[<-|[]]]; [|now left].
  destruct (last_in (first :: rest) first) as [H|H]; [rewrite <- H; now left|].
  exact H.
Qed.

Lemma circle_edges_in (indices : list nat) (e : list nat) (i : nat) :
  List.length indices = segments ->
  In e (circle_edges indices) -> In i e -> In i indices.
Proof.
  intros Hlen He Hi. unfold circle_edges in He.
  apply in_map_iff in He. destruct He as [k [<- Hk]].
  apply in_seq in Hk.
  destruct Hi as [<-|[<-|[]]]; apply nth_In; rewrite Hlen.
  - lia.
  - apply Nat.mod_upper_bound. discriminate.
Qed.

Section IndexFacts.

Variable pi : Q.
Variables cos sin : Q -> Q.

Lemma entity_points_circle_length (center : Vec3) (radius : Q) :
  List.length (entity_points pi cos sin (CIRCLE center radius)) = segments.
Proof.
  cbn [entity_points]. now rewrite length_map, length_seq.
Qed.

(** The indices in the edges and faces of an entity are among the indices
    returned for its points. *)
Lemma entity_indices_in (entity : Entity) (indices : list nat) (e : list nat)
  (i : nat) :
  List.length indices = List.length (entity_points pi cos sin entity) ->
  In e (entity_edges entity indices ++ entity_faces entity indices) ->
  In i e -> In i indices.
Proof.
  intros Hlen He Hi. apply in_app_or in He.
  destruct entity as [p1 p2|pts closed|pts closed|p0 p1 p2|c r|ty];
    cbn [entity_edges entity_faces] in He.
  - destruct He as [[<-|[]]|[]].
    destruct indices as [|a [|b [|]]]; try discriminate Hlen.
    exact Hi.
  - destruct He as [He|[]]. eapply polyline_edges_in; eassumption.
  - destruct He as [He|[]]. eapply polyline_edges_in; eassumption.
  - destruct He as [[]|[<-|[]]]. exact Hi.
  - destruct He as [He|[]].
    rewrite entity_points_circle_length in Hlen.
    eapply circle_edges_in; eassumption.
  - destruct He as [[]|[]].
Qed.

Lemma first_seen_from_subset {K : Type} (key : list Q -> K)
  (eqb : K -> K -> bool) (pts vs : list (list Q)) (w : list Q) :
  In w (first_seen_from key eqb vs pts) -> In w vs \/ In w pts.
Proof.
  revert vs. induction pts as [|p pts IH]; intros vs Hw; cbn in Hw;
    [now left|].
  destruct (seen key eqb (key p) vs).
  - destruct (IH _ Hw); [now left | right; now right].
  - destruct (IH _ Hw) as [H|H]; [|right; now right].
    apply in_app_or in H. destruct H as [H|[<-|[]]];
      [now left | right; now left].
Qed.

(** The vertices the DXF parser stores are the triples it was given. *)
Lemma parsed_dxf_vertices_triples (doc : DxfDoc) (v : list Q) :
  In v (vertices (_parse_dxf pi cos sin doc)) -> List.length v = 3%nat.
Proof.
  rewrite parse_dxf_spec. unfold dxf_spec. cbn [vertices]. intros Hv.
  destruct (first_seen_from_subset _ _ _ _ _ Hv) as [[]|Hin].
  unfold dxf_points in Hin. apply in_map_iff in Hin.
  destruct Hin as [p [<- _]]. reflexivity.
Qed.

(** X1.  Every index in the edges and faces of a parsed drawing refers to
    a vertex of the geometry, every edge has exactly two ends, and every
    vertex has exactly three coordinates. *)
Theorem dxf_indices_valid (doc : DxfDoc) :
  let g := _parse_dxf pi cos sin doc in
  (forall e i, In e (edges g ++ faces g) -> In i e -> valid_index g i) /\
  (forall e, In e (edges g) -> List.length e = 2%nat) /\
  (forall v, In v (vertices g) -> List.length v = 3%nat).
Proof.
  cbv zeta. rewrite parse_dxf_spec. unfold dxf_spec, valid_index.
  cbn [edges faces vertices].
  set (V := first_seen_from key3 key_eqb [] (dxf_points pi cos sin (modelspace doc))).
  assert (Hres : forall ent p, In ent (modelspace doc) ->
                   In p (entity_points pi cos sin ent) ->
                   (resolve V p < List.length V)%nat).
  { intros ent p Hent Hp. unfold resolve. apply index_of_lt.
    apply first_seen_from_seen; [apply key_eqb_refl|].
    unfold dxf_points. apply in_map. apply in_flat_map. eauto. }
  split; [|split].
  - intros e i He Hi.
    assert (Hex : exists ent, In ent (modelspace doc) /\
                    In e (entity_edges ent
                            (map (resolve V) (entity_points pi cos sin ent))
                          ++ entity_faces ent
                               (map (resolve V) (entity_points pi cos sin ent)))).
    { apply in_app_or in He. destruct He as [He|He];
        apply in_flat_map in He; destruct He as [ent [Hent He]];
        exists ent; split; try assumption; apply in_or_app; auto. }
    destruct Hex as [ent [Hent He']].
    assert (Hin : In i (map (resolve V) (entity_points pi cos sin ent))).
    { eapply entity_indices_in; [|exact He'|exact Hi]. apply length_map. }
    apply in_map_iff in Hin. destruct Hin as [p [<- Hp]]. eauto.
  - intros e He. apply in_flat_map in He. destruct He as [ent [_ He]].
    destruct ent as [p1 p2|pts closed|pts closed|p0 p1 p2|c r|ty];
      cbn [entity_edges] in He; try contradiction.
    + destruct He as [<-|[]]. reflexivity.
    + unfold polyline_edges in He. apply in_app_or in He.
      destruct He as [He|He].
      * clear -He. induction (map (resolve V) _) as [|a [|b rest] IH];
          cbn [consecutive] in He; try contradiction.
        destruct He as [<-|He]; [reflexivity | now apply IH].
      * destruct closed; [|destruct He].
        destruct (map (resolve V) _); [destruct He|].
        destruct He as [<-|[]]. reflexivity.
    + unfold polyline_edges in He. apply in_app_or in He.
      destruct He as [He|He].
      * clear -He. induction (map (resolve V) _) as [|a [|b rest] IH];
          cbn [consecutive] in He; try contradiction.
        destruct He as [<-|He]; [reflexivity | now apply IH].
      * destruct closed; [|destruct He].
        destruct (map (resolve V) _); [destruct He|].
        destruct He as [<-|[]]. reflexivity.
    + unfold circle_edges in He. apply in_map_iff in He.
      destruct He as [k [<- _]]. reflexivity.
  - intros v Hv. apply (parsed_dxf_vertices_triples doc).
    rewrite parse_dxf_spec. exact Hv.
Qed.

End IndexFacts.

(** X2.  An STL mesh gives one face per triangle and no edge; every face
    holds, for each vertex of its triangle, the index of a vertex of the
    geometry with the same coordinates; and the vertex count recorded in
    the metadata is the length of the vertex list. *)
Theorem stl_structure (vectors : list (list (list Q))) :
  let g := _parse_stl vectors in
  let index v := index_of tuple tuple_eqb (tuple v) (vertices g) in
  edges g = [] /\
  faces g = map (map index) vectors /\
  (forall t v, In t vectors -> In v t ->
     valid_index g (index v) /\
     tuple_eqb (nth (index v) (vertices g) []) v = true) /\
  In ("unique_vertices", MInt (List.length (vertices g))) (metadata g).
Proof.
  cbv zeta. rewrite parse_stl_spec. unfold stl_spec, valid_index.
  cbn [edges faces vertices metadata].
  split; [reflexivity|]. split; [reflexivity|]. split.
  - intros t v Ht Hv.
    assert (Hseen : seen tuple tuple_eqb (tuple v)
                      (first_seen_from tuple tuple_eqb [] (List.concat vectors))
                    = true).
    { apply first_seen_from_seen; [apply tuple_eqb_refl|].
      apply in_concat. eauto. }
    split; [now apply index_of_lt|].
    exact (index_of_key (list Q) tuple tuple_eqb _ _ Hseen).
  - cbn. right. right. right. left. reflexivity.
Qed.

(** *** Snapping and the stored vertex *)







(** *** Polylines *)

Lemma consecutive_length (indices : list nat) :
  List.length (consecutive indices) = (List.length indices - 1)%nat.
Proof.
  induction indices as [|a [|b rest] IH]; try reflexivity.
  change (consecutive (a :: b :: rest)) with ([a; b] :: consecutive (b :: rest)).
  cbn [List.length] in *. rewrite IH. lia.
Qed.

Lemma consecutive_nth (indices : list nat) (k : nat) :
  (S k < List.length indices)%nat ->
  nth k (consecutive indices) []
  = [nth k indices 0%nat; nth (S k) indices 0%nat].
Proof.
  revert k. induction indices as [|a [|b rest] IH]; intros k Hk;
    cbn [List.length] in Hk; try lia.
  change (consecutive (a :: b :: rest)) with ([a; b] :: consecutive (b :: rest)).
  destruct k as [|k]; [reflexivity|].
  cbn [nth]. rewrite IH by (cbn [List.length]; lia). reflexivity.
Qed.

Lemma add_vertices_edges (pts : list Vec3) (st : DxfState) :
  dxf_edges (snd (add_vertices pts st)) = dxf_edges st /\
  dxf_faces (snd (add_vertices pts st)) = dxf_faces st.
Proof.
  rewrite add_vertices_intern.
  destruct (intern_all key3 key_eqb (map vec_list pts)
              (dxf_vertices st, vertex_map st)) as [is_ [vs m]].
  split; reflexivity.
Qed.

Section PolylineFacts.

Variable pi : Q.
Variables cos sin : Q -> Q.

(** X5.  A polyline of [n] points appends [n - 1] edges joining the
    indices of consecutive points, and one more, from the last point back
    to the first, when it is closed and has a point: a closed polyline of
    one point appends a single edge from its vertex to itself.  Faces are
    untouched.  The lightweight and the legacy polyline behave alike. *)
Theorem polyline_edge_chain (st : DxfState) (entity : Entity)
  (pts : list Vec3) (closed : bool) :
  entity = POLYLINE pts closed \/
  (exists pts2, entity = LWPOLYLINE pts2 closed /\
                pts = map (fun p => mkVec3 (fst p) (snd p) 0) pts2) ->
  let n := List.length pts in
  let indices := fst (add_vertices pts st) in
  let st' := parse_entity pi cos sin st entity in
  exists new,
    dxf_edges st' = dxf_edges st ++ new /\
    dxf_faces st' = dxf_faces st /\
    List.length new
    = ((n - 1) + (if closed && negb (n =? 0) then 1 else 0))%nat /\
    (forall k, (S k < n)%nat ->
       nth k new [] = [nth k indices 0%nat; nth (S k) indices 0%nat]) /\
    (closed = true -> (0 < n)%nat ->
       nth (n - 1) new []
       = [nth (n - 1) indices 0%nat; nth 0 indices 0%nat]).
Proof.
  intros Hent n indices st'.
  assert (Hst : st' = edges_append (snd (add_vertices pts st))
                        (polyline_edges indices closed)).
  { unfold st', indices.
    destruct Hent as [->|[pts2 [-> ->]]]; cbn [parse_entity];
      destruct (add_vertices _ st) as [is_ st1]; reflexivity. }
  assert (Hlen : List.length indices = n) by apply add_vertices_length.
  destruct (add_vertices_edges pts st) as [He Hf].
  exists (polyline_edges indices closed).
  rewrite Hst. unfold edges_append. cbn [dxf_edges dxf_faces].
  rewrite He, Hf. split; [reflexivity|]. split; [reflexivity|].
  unfold polyline_edges.
  split; [|split].
  - rewrite length_app, consecutive_length, Hlen.
    destruct closed; cbn [andb]; [|reflexivity].
    destruct indices as [|first rest]; cbn [List.length] in Hlen;
      rewrite <- Hlen; reflexivity.
  - intros k Hk. rewrite app_nth1.
    + apply consecutive_nth. lia.
    + rewrite consecutive_length. lia.
  - intros -> Hn. rewrite app_nth2; rewrite consecutive_length, Hlen; [|lia].
    rewrite Nat.sub_diag.
    destruct indices as [|first rest]; cbn [List.length] in Hlen; [lia|].
    cbn [nth]. f_equal.
    rewrite <- Hlen. cbn [List.length]. rewrite Nat.sub_succ, Nat.sub_0_r.
    clear. revert first. induction rest as [|a rest IH]; intros first;
      [reflexivity|].
    destruct rest as [|b rest]; [reflexivity|].
    change (last (first :: a :: b :: rest) first)
      with (last (a :: b :: rest) first).
    cbn [List.length nth].
    specialize (IH a).
    change (last (a :: b :: rest) first) with (last (b :: rest) first).
    change (last (a :: b :: rest) a) with (last (b :: rest) a) in IH.
    cbn [List.length nth] in IH.
    rewrite <- IH. clear.
    revert b. induction rest as [|c rest IH]; intros b; [reflexivity|].
    change (last (b :: c :: rest) first) with (last (c :: rest) first).
    change (last (b :: c :: rest) a) with (last (c :: rest) a).
    apply IH.
Qed.

End PolylineFacts.

(** *** Minimum, maximum and the bounding box *)

Lemma py_min_spec (xs : list Q) (x : Q) :
  In (py_min x xs) (x :: xs) /\
  Forall (fun y => py_min x xs <= y) (x :: xs).
Proof.
  unfold py_min. revert x. induction xs as [|y xs IH]; intros x.
  - cbn. split; [now left|]. constructor; [apply Qle_refl | constructor].
  - cbn [fold_left].
    destruct (IH (if Qlt_bool y x then y else x)) as [Hin Hall].
    inversion Hall as [|m l Hm Hrest]; subst. split.
    + destruct Hin as [Hin|Hin]; [|right; now right].
      rewrite <- Hin. destruct (Qlt_bool y x); [right|]; now left.
    + destruct (Qlt_bool y x) eqn:E.
      * apply Qlt_bool_iff in E. constructor; [|constructor; assumption].
        eapply Qle_trans; [exact Hm|]. now apply Qlt_le_weak.
      * apply Qlt_bool_false_iff in E. constructor; [exact Hm|].
        constructor; [|assumption]. eapply Qle_trans; eassumption.
Qed.

Lemma py_max_spec (xs : list Q) (x : Q) :
  In (py_max x xs) (x :: xs) /\
  Forall (fun y => y <= py_max x xs) (x :: xs).
Proof.
  unfold py_max. revert x. induction xs as [|y xs IH]; intros x.
  - cbn. split; [now left|]. constructor; [apply Qle_refl | constructor].
  - cbn [fold_left].
    destruct (IH (if Qlt_bool x y then y else x)) as [Hin Hall].
    inversion Hall as [|m l Hm Hrest]; subst. split.
    + destruct Hin as [Hin|Hin]; [|right; now right].
      rewrite <- Hin. destruct (Qlt_bool x y); [right|]; now left.
    + destruct (Qlt_bool x y) eqn:E.
      * apply Qlt_bool_iff in E. constructor; [|constructor; assumption].
        eapply Qle_trans; [|exact Hm]. now apply Qlt_le_weak.
      * apply Qlt_bool_false_iff in E. constructor; [exact Hm|].
        constructor; [|assumption]. eapply Qle_trans; eassumption.
Qed.

(** The smallest and the largest value of a coordinate over a non-empty
    vertex list: both are taken by a vertex, and every vertex lies
    between them. *)
Lemma coordinate_range (coord : list Q -> Q) (v : list Q)
  (vs : list (list Q)) :
  let lo := py_min (coord v) (map coord vs) in
  let hi := py_max (coord v) (map coord vs) in
  (exists a, In a (v :: vs) /\ coord a = lo) /\
  (exists b, In b (v :: vs) /\ coord b = hi) /\
  (forall w, In w (v :: vs) -> lo <= coord w <= hi).
Proof.
  cbv zeta.
  destruct (py_min_spec (map coord vs) (coord v)) as [Hmin_in Hmin_all].
  destruct (py_max_spec (map coord vs) (coord v)) as [Hmax_in Hmax_all].
  change (coord v :: map coord vs) with (map coord (v :: vs)) in *.
  split; [|split].
  - apply in_map_iff in Hmin_in. destruct Hmin_in as [a [Ha Hin]]. eauto.
  - apply in_map_iff in Hmax_in. destruct Hmax_in as [b [Hb Hin]]. eauto.
  - intros w Hw. rewrite Forall_forall in Hmin_all, Hmax_all.
    split; [apply Hmin_all | apply Hmax_all]; now apply in_map.
Qed.

(** X6.  On a non-empty vertex list whose vertices have x and y,
    [calculate_bounds] returns a box; every vertex lies in it, with z taken
    as 0 for a vertex of two coordinates; each of its six faces touches a
    vertex; width, height and depth are the differences of its sides and
    are not negative; the center is the midpoint; and its x and y sides are
    the ones the validator measures. *)
Theorem bounds_enclose (g : Geometry) :
  vertices g <> [] ->
  Forall has_xy (vertices g) ->
  exists b : Bounds,
    calculate_bounds g = Ok (Some b) /\
    xy_extent (vertices g) = Ok (min_x b, max_x b, min_y b, max_y b) /\
    (forall v, In v (vertices g) ->
       min_x b <= nth 0 v 0 <= max_x b /\
       min_y b <= nth 1 v 0 <= max_y b /\
       min_z b <= z_coord v <= max_z b) /\
    (exists v1 v2 v3 v4 v5 v6,
       In v1 (vertices g) /\ nth 0 v1 0 = min_x b /\
       In v2 (vertices g) /\ nth 0 v2 0 = max_x b /\
       In v3 (vertices g) /\ nth 1 v3 0 = min_y b /\
       In v4 (vertices g) /\ nth 1 v4 0 = max_y b /\
       In v5 (vertices g) /\ z_coord v5 = min_z b /\
       In v6 (vertices g) /\ z_coord v6 = max_z b) /\
    width b = max_x b - min_x b /\ 0 <= width b /\
    height b = max_y b - min_y b /\ 0 <= height b /\
    depth b = max_z b - min_z b /\ 0 <= depth b /\
    center b = [ (min_x b + max_x b) / 2; (min_y b + max_y b) / 2;
                 (min_z b + max_z b) / 2 ].
Proof.
  intros Hne HF. unfold calculate_bounds, xy_extent.
  destruct (vertices g) as [|v vs] eqn:EV; [congruence|]. clear Hne.
  rewrite (mapM_index_Ok (v :: vs) 0)
    by (eapply Forall_impl; [|exact HF]; unfold has_xy; intros; lia).
  rewrite (mapM_index_Ok (v :: vs) 1)
    by (eapply Forall_impl; [|exact HF]; unfold has_xy; intros; lia).
  cbn [bind map].
  destruct (coordinate_range (fun w => nth 0 w 0) v vs) as [[a1 [Ha1 Ea1]] [[a2 [Ha2 Ea2]] Hx]].
  destruct (coordinate_range (fun w => nth 1 w 0) v vs) as [[a3 [Ha3 Ea3]] [[a4 [Ha4 Ea4]] Hy]].
  destruct (coordinate_range z_coord v vs) as [[a5 [Ha5 Ea5]] [[a6 [Ha6 Ea6]] Hz]].
  eexists. split; [reflexivity|]. cbn [min_x max_x min_y max_y min_z max_z
                                       width height depth center].
  split; [reflexivity|]. split; [|split].
  - intros w Hw. auto.
  - exists a1, a2, a3, a4, a5, a6. tauto.
  - pose proof (Hx v (or_introl eq_refl)) as [Hx1 Hx2].
    pose proof (Hy v (or_introl eq_refl)) as [Hy1 Hy2].
    pose proof (Hz v (or_introl eq_refl)) as [Hz1 Hz2].
    repeat split; try reflexivity; lra.
Qed.

(** *** Planarity *)


(** *** When validation accepts *)


Lemma get_report_inv (self : GNDValidator) (r : Report) (v' : GNDValidator) :
  get_report self = Ok (r, v') ->
  exists v,
    _check_minimum_size (_check_empty_geometry self) = Ok v /\
    valid r = (List.length (errors v) =? 0)%nat /\
    errors v' = errors v /\
    deref v' (report_errors r) = errors v'.
Proof.
  intros H. unfold get_report in H. apply bind_Ok in H.
  destruct H as [[b s] [Hval Heq]]. inversion Heq; subst. clear Heq.
  pose proof Hval as Hval'. unfold is_valid in Hval'. apply bind_Ok in Hval'.
  destruct Hval' as [v [Hcm _]].
  destruct (is_valid_unfold self v Hcm) as [Hvalid Herr].
  rewrite Hval in Hvalid. inversion Hvalid; subst.
  exists v. cbn [valid report_errors deref]. rewrite Herr. auto.
Qed.

(** The errors of checks 1 to 3 on an empty vertex list. *)
Lemma first_checks_empty (g : Geometry) :
  vertices g = [] ->
  _check_minimum_size (_check_empty_geometry (GNDValidator_init g))
  = Ok (errors_append (GNDValidator_init g) msg_empty).
Proof.
  intros EV. unfold _check_empty_geometry. cbn [geometry GNDValidator_init].
  rewrite EV. unfold _check_minimum_size.
  cbn [geometry errors_append GNDValidator_init]. now rewrite EV.
Qed.






Section LoadFacts.

Variable pi : Q.
Variables cos sin : Q -> Q.

Lemma load_Ok_inv (f : SourceFile) (res : LoadResult) :
  load pi cos sin f = Ok res ->
  exists g r v' bounds,
    parse pi cos sin f = Ok g /\
    get_report (GNDValidator_init g) = Ok (r, v') /\
    valid r = true /\
    calculate_bounds g = Ok bounds /\
    res = mkLoadResult g bounds (format_of f)
            (List.length (vertices g)) (List.length (faces g))
            (List.length (edges g)) (read_report r v').
Proof.
  unfold load, load_body. intros H.
  destruct (parse pi cos sin f) as [g|e] eqn:Ep; cbn [bind] in H;
    [|discriminate].
  destruct (get_report (GNDValidator_init g)) as [[r v']|e] eqn:Er;
    cbn [bind] in H; [|discriminate].
  destruct (valid r) eqn:Ev; cbn [negb] in H; [|discriminate].
  destruct (calculate_bounds g) as [bounds|e] eqn:Eb; cbn [bind] in H;
    [|discriminate].
  inversion H. exists g, r, v', bounds. repeat split; assumption.
Qed.




End LoadFacts.

(** *** Boundary closure: the edge-count dict *)

Lemma count_incr_get (k j : nat) (d : list (nat * nat)) :
  dict_get Nat.eqb (count_incr k d) j
  = if (k =? j)%nat
    then Some (S (match dict_get Nat.eqb d k with Some c => c | None => O end))
    else dict_get Nat.eqb d j.
Proof.
  induction d as [|[k' c] d IH]; cbn [count_incr dict_get].
  - reflexivity.
  - destruct (Nat.eqb_spec k' k) as [->|Hk'].
    + cbn [dict_get]. destruct (Nat.eqb_spec k j) as [->|Hkj].
      * reflexivity.
      * reflexivity.
    + cbn [dict_get]. rewrite IH.
      destruct (Nat.eqb_spec k j) as [->|Hkj].
      * destruct (Nat.eqb_spec k' j); [congruence | reflexivity].
      * reflexivity.
Qed.

Lemma count_incr_keys (k : nat) (d : list (nat * nat)) :
  map fst (count_incr k d)
  = if existsb (Nat.eqb k) (map fst d) then map fst d else map fst d ++ [k].
Proof.
  induction d as [|[k' c] d IH]; cbn [count_incr map fst existsb];
    [reflexivity|].
  destruct (Nat.eqb_spec k' k) as [->|Hk'].
  - rewrite Nat.eqb_refl. reflexivity.
  - cbn [map fst]. rewrite IH.
    destruct (Nat.eqb_spec k k'); [congruence|]. cbn [orb].
    destruct (existsb _ _); reflexivity.
Qed.

Lemma count_incr_NoDup (k : nat) (d : list (nat * nat)) :
  NoDup (map fst d) -> NoDup (map fst (count_incr k d)).
Proof.
  intros H. rewrite count_incr_keys.
  destruct (existsb (Nat.eqb k) (map fst d)) eqn:E; [exact H|].
  apply NoDup_app; [exact H | repeat constructor; intros [] |].
  intros x Hx [Heq|[]]. subst x.
  assert (existsb (Nat.eqb k) (map fst d) = true)
    by (apply existsb_exists; exists k; split; [exact Hx | apply Nat.eqb_refl]).
  congruence.
Qed.

(** With distinct keys, an entry is in the dict iff the lookup of its key
    returns its count. *)
Lemma dict_get_In (d : list (nat * nat)) (k c : nat) :
  NoDup (map fst d) ->
  In (k, c) d <-> dict_get Nat.eqb d k = Some c.
Proof.
  induction d as [|[k' c'] d IH]; intros Hnd; cbn [dict_get].
  - split; [intros [] | discriminate].
  - inversion Hnd as [|x l Hnotin Hnd']; subst.
    destruct (Nat.eqb_spec k' k) as [->|Hk'].
    + split.
      * intros [Heq|Hin]; [congruence|].
        exfalso. apply Hnotin. apply in_map_iff. exists (k, c). auto.
      * intros Heq. left. congruence.
    + rewrite <- (IH Hnd'). split.
      * intros [Heq|Hin]; [congruence | exact Hin].
      * intros Hin. now right.
Qed.

Lemma occurrences_app (k : nat) (l1 l2 : list nat) :
  occurrences k (l1 ++ l2) = (occurrences k l1 + occurrences k l2)%nat.
Proof. unfold occurrences. apply count_occ_app. Qed.

Lemma occurrences_cons (k j : nat) (l : list nat) :
  occurrences k (j :: l)
  = ((if (j =? k)%nat then 1 else 0) + occurrences k l)%nat.
Proof.
  unfold occurrences. cbn [count_occ].
  destruct (Nat.eq_dec j k) as [->|H].
  - now rewrite Nat.eqb_refl.
  - destruct (Nat.eqb_spec j k); [congruence | reflexivity].
Qed.

Lemma counts_incr (k : nat) (d : list (nat * nat)) (l : list nat) :
  counts d l -> counts (count_incr k d) (l ++ [k]).
Proof.
  intros [Hnd Hget]. split; [now apply count_incr_NoDup|].
  intros j. rewrite count_incr_get, occurrences_app, occurrences_cons.
  rewrite (Hget k).
  destruct (Nat.eqb_spec k j) as [->|Hkj].
  - replace (occurrences j [] ) with O by reflexivity.
    replace (occurrences j l + (1 + 0))%nat with (S (occurrences j l)) by lia.
    cbn [Nat.eqb]. destruct (occurrences j l); reflexivity.
  - replace (occurrences j []) with O by reflexivity.
    rewrite !Nat.add_0_r. apply Hget.
Qed.

Lemma counts_edge (edge : list nat) (d : list (nat * nat)) (l : list nat) :
  counts d l ->
  counts (fold_left (fun ec vertex_idx => count_incr vertex_idx ec) edge d)
    (l ++ edge).
Proof.
  revert d l. induction edge as [|k edge IH]; intros d l H; cbn [fold_left].
  - now rewrite app_nil_r.
  - replace (l ++ k :: edge) with ((l ++ [k]) ++ edge)
      by (rewrite <- app_assoc; reflexivity).
    apply IH. now apply counts_incr.
Qed.

Lemma counts_edges (es : list (list nat)) (d : list (nat * nat))
  (l : list nat) :
  counts d l ->
  counts (fold_left
            (fun edge_count edge =>
               fold_left (fun ec vertex_idx => count_incr vertex_idx ec)
                 edge edge_count) es d)
    (l ++ List.concat es).
Proof.
  revert d l. induction es as [|e es IH]; intros d l H;
    cbn [fold_left List.concat].
  - now rewrite app_nil_r.
  - rewrite app_assoc. apply IH. now apply counts_edge.
Qed.

Lemma counts_build_edge_count (es : list (list nat)) :
  counts (build_edge_count es) (List.concat es).
Proof.
  unfold build_edge_count.
  apply (counts_edges es [] []). split; [constructor|]. intros j. reflexivity.
Qed.

(** Counting one more end flips the parity of the number of odd
    entries. *)
Lemma count_incr_parity (k : nat) (d : list (nat * nat)) :
  Nat.even (odd_entries (count_incr k d)) = negb (Nat.even (odd_entries d)).
Proof.
  unfold odd_entries.
  induction d as [|[k' c] d IH]; cbn [count_incr]; [reflexivity|].
  destruct (k' =? k)%nat.
  - cbn [filter snd]. rewrite Nat.even_succ, <- Nat.negb_even.
    destruct (Nat.even c); cbn [negb List.length].
    + rewrite Nat.even_succ, <- Nat.negb_even. reflexivity.
    + rewrite Nat.even_succ, <- Nat.negb_even.
      now rewrite negb_involutive.
  - cbn [filter snd]. destruct (negb (Nat.even c)); cbn [List.length].
    + rewrite !Nat.even_succ, <- !Nat.negb_even, IH. reflexivity.
    + exact IH.
Qed.

Lemma pair_edges_parity (es : list (list nat)) (d : list (nat * nat)) :
  Forall (fun e => List.length e = 2%nat) es ->
  Nat.even
    (odd_entries
       (fold_left
          (fun edge_count edge =>
             fold_left (fun ec vertex_idx => count_incr vertex_idx ec)
               edge edge_count) es d))
  = Nat.even (odd_entries d).
Proof.
  intros H. revert d. induction H as [|e es He _ IH]; intros d;
    cbn [fold_left]; [reflexivity|].
  rewrite IH. destruct e as [|a [|b [|]]]; try discriminate He.
  cbn [fold_left]. rewrite !count_incr_parity. apply negb_involutive.
Qed.

Lemma open_vertices_NoDup (es : list (list nat)) : NoDup (open_vertices es).
Proof.
  destruct (counts_build_edge_count es) as [Hnd _].
  unfold open_vertices.
  set (d := build_edge_count es) in *. clearbody d.
  induction d as [|[k c] d IH]; cbn [filter map]; [constructor|].
  inversion Hnd as [|x l Hnotin Hnd']; subst.
  destruct (negb (Nat.even (snd (k, c)))); [|now apply IH].
  cbn [map fst]. constructor; [|now apply IH].
  intros Hin. apply Hnotin. apply in_map_iff in Hin.
  destruct Hin as [[k' c'] [Hk Hf]]. apply filter_In in Hf.
  apply in_map_iff. exists (k', c'). tauto.
Qed.

Lemma open_vertices_In (es : list (list nat)) (k : nat) :
  In k (open_vertices es)
  <-> Nat.odd (occurrences k (List.concat es)) = true.
Proof.
  destruct (counts_build_edge_count es) as [Hnd Hget].
  unfold open_vertices. rewrite in_map_iff. split.
  - intros [[k' c] [Hk Hf]]. cbn in Hk. subst k'.
    apply filter_In in Hf. destruct Hf as [Hin Hodd]. cbn [snd] in Hodd.
    apply (dict_get_In _ _ _ Hnd) in Hin. rewrite Hget in Hin.
    destruct (occurrences k (List.concat es) =? 0)%nat; [discriminate|].
    inversion Hin; subst c. now rewrite <- Nat.negb_even.
  - intros Hodd. exists (k, occurrences k (List.concat es)).
    split; [reflexivity|]. apply filter_In. split.
    + apply (dict_get_In _ _ _ Hnd). rewrite Hget.
      destruct (occurrences k (List.concat es)); [discriminate Hodd|].
      reflexivity.
    + cbn [snd]. now rewrite Nat.negb_even.
Qed.

Lemma open_vertices_even (es : list (list nat)) :
  Forall (fun e => List.length e = 2%nat) es ->
  Nat.even (List.length (open_vertices es)) = true.
Proof.
  intros Hp. unfold open_vertices. rewrite length_map.
  fold (odd_entries (build_edge_count es)). unfold build_edge_count.
  now rewrite pair_edges_parity.
Qed.

(** X12.  The open vertices of the boundary check are exactly the vertex
    indices that occur an odd number of times among the ends of the edges,
    each listed once; when every edge has two ends their number is even,
    so the warning, which needs more than two of them, always reports an
    even number of at least four. *)
Theorem open_vertices_spec (es : list (list nat)) :
  NoDup (open_vertices es) /\
  (forall k, In k (open_vertices es)
             <-> Nat.odd (occurrences k (List.concat es)) = true) /\
  (Forall (fun e => List.length e = 2%nat) es ->
   Nat.even (List.length (open_vertices es)) = true /\
   forall self,
     edges (geometry self) = es -> es <> [] ->
     _check_closed_boundaries self = self \/
     exists n,
       n = List.length (open_vertices es) /\ (4 <= n)%nat /\
       Nat.even n = true /\
       _check_closed_boundaries self
       = warnings_append self (msg_open_vertices n)).
Proof.
  split; [apply open_vertices_NoDup|]. split; [apply open_vertices_In|].
  intros Hp. pose proof (open_vertices_even es Hp) as Hev.
  split; [exact Hev|].
  intros self Hes Hne. unfold _check_closed_boundaries. rewrite Hes.
  destruct es as [|e es']; [congruence|].
  destruct (Nat.ltb_spec 2 (List.length (open_vertices (e :: es'))))
    as [Hlt|Hge]; [|now left].
  right. eexists. split; [reflexivity|]. split; [|split].
  - destruct (List.length (open_vertices (e :: es'))) as [|[|[|[|n]]]];
      try lia; discriminate Hev.
  - exact Hev.
  - reflexivity.
Qed.

(** *** Closed outlines *)

Lemma last_cons_default (b : nat) (rest : list nat) (d1 d2 : nat) :
  last (b :: rest) d1 = last (b :: rest) d2.
Proof.
  revert b. induction rest as [|c rest IH]; intros b; [reflexivity|].
  change (last (b :: c :: rest) d1) with (last (c :: rest) d1).
  change (last (b :: c :: rest) d2) with (last (c :: rest) d2).
  apply IH.
Qed.

Lemma occurrences_consecutive_closed (k a : nat) (rest : list nat) :
  (occurrences k (List.concat (consecutive (a :: rest)))
   + occurrences k [last (a :: rest) a; a])%nat
  = (2 * occurrences k (a :: rest))%nat.
Proof.
  revert a. induction rest as [|b rest IH]; intros a.
  - cbn [consecutive List.concat last]. rewrite !occurrences_cons.
    replace (occurrences k []) with O by reflexivity. lia.
  - change (consecutive (a :: b :: rest))
      with ([a; b] :: consecutive (b :: rest)).
    cbn [List.concat]. rewrite occurrences_app.
    change (last (a :: b :: rest) a) with (last (b :: rest) a).
    specialize (IH b).
    rewrite (last_cons_default b rest a b).
    rewrite !occurrences_cons in *.
    replace (occurrences k []) with O in * by reflexivity. lia.
Qed.

Lemma occurrences_polyline_closed (k : nat) (indices : list nat) :
  occurrences k (List.concat (polyline_edges indices true))
  = (2 * occurrences k indices)%nat.
Proof.
  unfold polyline_edges. destruct indices as [|a rest]; [reflexivity|].
  rewrite concat_app, occurrences_app. cbn [List.concat].
  rewrite app_nil_r. apply occurrences_consecutive_closed.
Qed.

(** The edges of a circle are those of the closed polyline through its 32
    points. *)
Lemma circle_edges_as_polyline (indices : list nat) :
  List.length indices = segments ->
  circle_edges indices = polyline_edges indices true.
Proof.
  intros Hlen.
  do 32 (destruct indices as [|? indices]; [discriminate Hlen|]).
  destruct indices; [|discriminate Hlen].
  reflexivity.
Qed.

Lemma even_occurrences_flat_map {A : Type} (f : A -> list (list nat))
  (l : list A) (k : nat) :
  (forall a, In a l -> Nat.even (occurrences k (List.concat (f a))) = true) ->
  Nat.even (occurrences k (List.concat (flat_map f l))) = true.
Proof.
  induction l as [|a l IH]; intros H; [reflexivity|].
  cbn [flat_map]. rewrite concat_app, occurrences_app, Nat.even_add.
  rewrite (H a (or_introl eq_refl)), IH; [reflexivity|].
  intros b Hb. apply H. now right.
Qed.

Section ClosedOutlines.

Variable pi : Q.
Variables cos sin : Q -> Q.

(** X13.  A drawing made of circles and closed polylines only has no open
    vertex: every vertex index occurs an even number of times among the
    ends of its edges, so the boundary check never adds its open-boundary
    warning for it; with an edge it leaves the validator as it is, and
    without any it adds the warning that no edges or faces are defined. *)
Theorem closed_outlines_have_no_open_vertex (doc : DxfDoc) :
  Forall closed_entity (modelspace doc) ->
  let g := _parse_dxf pi cos sin doc in
  open_vertices (edges g) = [] /\
  faces g = [] /\
  forall self,
    geometry self = g ->
    (edges g <> [] -> _check_closed_boundaries self = self) /\
    (edges g = [] ->
     _check_closed_boundaries self
     = warnings_append self msg_no_connectivity).
Proof.
  intros Hclosed. cbv zeta. rewrite parse_dxf_spec. unfold dxf_spec.
  cbn [edges faces].
  set (V := first_seen_from key3 key_eqb []
              (dxf_points pi cos sin (modelspace doc))).
  set (es := flat_map
               (fun e => entity_edges e
                           (map (resolve V) (entity_points pi cos sin e)))
               (modelspace doc)).
  assert (Hfaces : flat_map
                     (fun e => entity_faces e
                                 (map (resolve V) (entity_points pi cos sin e)))
                     (modelspace doc) = []).
  { clear es. clearbody V. induction Hclosed as [|e l He _ IH]; [reflexivity|].
    cbn [flat_map]. rewrite IH.
    destruct e; cbn in He; try contradiction; reflexivity. }
  assert (Hopen : open_vertices es = []).
  { destruct (open_vertices es) as [|k rest] eqn:E; [reflexivity|].
    exfalso.
    assert (Hin : In k (open_vertices es)) by (rewrite E; now left).
    apply open_vertices_In in Hin.
    assert (Hev : Nat.even (occurrences k (List.concat es)) = true).
    { unfold es. apply even_occurrences_flat_map. intros e He.
      rewrite Forall_forall in Hclosed. specialize (Hclosed e He).
      destruct e as [p1 p2|pts closed|pts closed|p0 p1 p2|c r|ty];
        cbn in Hclosed; try contradiction; cbn [entity_edges].
      - subst closed. rewrite occurrences_polyline_closed.
        now rewrite Nat.even_mul.
      - subst closed. rewrite occurrences_polyline_closed.
        now rewrite Nat.even_mul.
      - rewrite circle_edges_as_polyline, occurrences_polyline_closed.
        + now rewrite Nat.even_mul.
        + rewrite length_map. cbn [entity_points].
          now rewrite length_map, length_seq. }
    rewrite <- Nat.negb_even, Hev in Hin. discriminate. }
  split; [exact Hopen|]. split; [exact Hfaces|].
  intros self Hg. unfold _check_closed_boundaries. rewrite Hg.
  cbn [edges faces]. fold V. fold es. rewrite Hfaces.
  split.
  - intros Hne. destruct es as [|e es']; [congruence|].
    rewrite Hopen. reflexivity.
  - intros ->. reflexivity.
Qed.

End ClosedOutlines.

(** *** Rectangles *)

Lemma Qlt_bool_comp (a a' b b' : Q) :
  a == a' -> b == b' -> Qlt_bool a b = Qlt_bool a' b'.
Proof.
  intros Ha Hb. unfold Qlt_bool. now rewrite (Qleb_comp _ _ Hb _ _ Ha).
Qed.

(** An edge from [(a, y1)] to [(a, y2)] meets every horizontal line at
    [x = a]. *)
Lemma vertical_edge_intersect (a X Y : Q) : a + (a - a) * X / Y == a.
Proof.
  unfold Qdiv. assert (H : a - a == 0) by ring. rewrite H.
  rewrite !Qmult_0_l. ring.
Qed.

(** The ray from a point crosses an odd number of sides of the rectangle
    exactly when the point is in the half-open box. *)
Lemma rectangle_crossings (w h px py : Q) :
  0 < w -> 0 < h ->
  inside (rectangle w h) px py = true
  <-> 0 <= px /\ px < w /\ 0 <= py /\ py < h.
Proof.
  intros Hw Hh.
  unfold inside, crossings, rectangle. cbn [vertices edges].
  set (vs := [[0; 0; 0]; [w; 0; 0]; [w; h; 0]; [0; h; 0]]).
  assert (E1 : crosses vs px py [0; 1]%nat = false).
  { unfold crosses, vs. cbn [nth List.length Nat.ltb Nat.leb].
    rewrite eqb_reflx. reflexivity. }
  assert (E3 : crosses vs px py [2; 3]%nat = false).
  { unfold crosses, vs. cbn [nth List.length Nat.ltb Nat.leb].
    rewrite eqb_reflx. reflexivity. }
  assert (E2 : crosses vs px py [1; 2]%nat
               = negb (Bool.eqb (Qlt_bool py 0) (Qlt_bool py h))
                 && Qlt_bool px w).
  { unfold crosses, vs. cbn [nth List.length Nat.ltb Nat.leb andb].
    f_equal. apply Qlt_bool_comp; [reflexivity|].
    apply vertical_edge_intersect. }
  assert (E4 : crosses vs px py [3; 0]%nat
               = negb (Bool.eqb (Qlt_bool py h) (Qlt_bool py 0))
                 && Qlt_bool px 0).
  { unfold crosses, vs. cbn [nth List.length Nat.ltb Nat.leb andb].
    f_equal. apply Qlt_bool_comp; [reflexivity|].
    apply vertical_edge_intersect. }
  cbn [filter]. rewrite E1, E2, E3, E4.
  destruct (Qlt_bool py 0) eqn:A; destruct (Qlt_bool py h) eqn:B;
    destruct (Qlt_bool px w) eqn:C; destruct (Qlt_bool px 0) eqn:D;
    cbn;
    try apply Qlt_bool_iff in A; try apply Qlt_bool_false_iff in A;
    try apply Qlt_bool_iff in B; try apply Qlt_bool_false_iff in B;
    try apply Qlt_bool_iff in C; try apply Qlt_bool_false_iff in C;
    try apply Qlt_bool_iff in D; try apply Qlt_bool_false_iff in D;
    split; try discriminate; try (intros _; repeat split; lra);
    try (intros [H1 [H2 [H3 H4]]]; exfalso; lra); try reflexivity.
Qed.

Lemma rectangle_has_xy (w h : Q) : Forall has_xy (vertices (rectangle w h)).
Proof.
  repeat constructor; unfold has_xy; cbn; lia.
Qed.

(** X14.  Ray casting on a rectangle decides the half-open box:
    [_point_in_polygon] on the outline of the rectangle with corners (0,0)
    and (w,h) returns, and returns [True] exactly for the points with
    [0 <= px < w] and [0 <= py < h].  Points on the left and bottom sides
    count as inside, points on the right and top sides as outside. *)
Theorem rectangle_inside (w h px py : Q) :
  0 < w -> 0 < h ->
  exists b : bool,
    _point_in_polygon (GNDValidator_init (rectangle w h)) px py = Ok b /\
    (b = true <-> 0 <= px /\ px < w /\ 0 <= py /\ py < h).
Proof.
  intros Hw Hh. exists (inside (rectangle w h) px py). split.
  - apply point_in_polygon_spec.
    + apply rectangle_has_xy.
    + discriminate.
  - now apply rectangle_crossings.
Qed.





Section RectangleFacts.

Variable pi : Q.
Variables cos sin : Q -> Q.



End RectangleFacts.

(** *** A second run on the same validator *)

(** X16.  Running the validation twice on one validator never changes the
    verdict, and never fails if the first run returned: the second run
    appends to each of the three lists the same messages the first run
    appended, so every message of the first run is reported twice, and the
    report of the first run, which holds the lists themselves, reads the
    same as the report of the second. *)
Theorem second_run_repeats_messages (self : GNDValidator) (r1 : Report)
  (v1 : GNDValidator) :
  get_report self = Ok (r1, v1) ->
  exists (r2 : Report) (v2 : GNDValidator),
    get_report v1 = Ok (r2, v2) /\
    valid r2 = valid r1 /\
    (exists e w s, appended self v1 e w s /\ appended v1 v2 e w s) /\
    read_report r1 v2 = read_report r2 v2.
Proof.
  unfold get_report. rewrite (is_valid_appends self). intros H.
  destruct (is_valid (GNDValidator_init (geometry self))) as [[b f]|e] eqn:E;
    cbn [bind snd] in H; [|discriminate].
  inversion H; subst r1 v1. clear H.
  rewrite (is_valid_appends (extend self f)).
  change (geometry (extend self f)) with (geometry self).
  rewrite E. cbn [bind snd].
  assert (Hval : (List.length (errors (extend self f) ++ errors f) =? 0)%nat
                 = (List.length (errors self ++ errors f) =? 0)%nat).
  { cbn [extend errors].
    destruct (errors self) as [|m ms]; [|reflexivity].
    destruct (errors f) as [|m ms]; reflexivity. }
  rewrite Hval. eexists _, _. split; [reflexivity|].
  cbn [valid]. split; [reflexivity|]. split; [|reflexivity].
  exists (errors f), (warnings f), (suggestions f).
  split; repeat split; reflexivity.
Qed.

(** *** STL meshes *)


Section StlFacts.

Variable pi : Q.
Variables cos sin : Q -> Q.



End StlFacts.

(** *** The command line *)

Section MainFacts.

Variable pi : Q.
Variables cos sin : Q -> Q.
Variable file_at : string -> SourceFile.

(** X18.  [main] exits with status 0 exactly when it prints a success
    record, and with status 1 otherwise.  With fewer than three elements
    in [sys.argv] it prints the usage error without loading anything.
    Otherwise the outcome depends on the file at [sys.argv[1]] only: the
    project path and any further argument play no part; a printed success
    record carries a valid report and at least one vertex, and a printed
    load failure starts with "Failed to load GND file: ". *)
Theorem main_outcome (argv : list string) :
  let out := main pi cos sin file_at argv in
  (snd out = 0%nat <-> exists res, fst out = PrintedSuccess res) /\
  (snd out = 0%nat \/ snd out = 1%nat) /\
  ((List.length argv < 3)%nat -> out = (PrintedFailure usage_error, 1%nat)) /\
  (forall script file project rest,
     argv = script :: file :: project :: rest ->
     out = main pi cos sin file_at [EmptyString; file; EmptyString] /\
     (forall res, fst out = PrintedSuccess res ->
        load pi cos sin (file_at file) = Ok res /\
        view_valid (validation res) = true /\
        (0 < vertex_count res)%nat) /\
     (forall msg, fst out = PrintedFailure msg ->
        exists text, msg = ("Failed to load GND file: " ++ text)%string)).
Proof.
  cbv zeta. split; [|split; [|split]].
  - unfold main. destruct argv as [|a [|b [|c rest]]]; cbn [fst snd];
      try (split; [discriminate | intros [res Hres]; discriminate Hres]).
    destruct (load pi cos sin (file_at b)); cbn [fst snd].
    + split; eauto.
    + split; [discriminate | intros [res Hres]; discriminate Hres].
  - unfold main. destruct argv as [|a [|b [|c rest]]]; cbn [fst snd]; auto.
    destruct (load pi cos sin (file_at b)); cbn [fst snd]; auto.
  - intros Hlen. unfold main.
    destruct argv as [|a [|b [|c rest]]]; try reflexivity.
    cbn [List.length] in Hlen. lia.
  - intros script file project rest ->. unfold main.
    split; [reflexivity|].
    destruct (load pi cos sin (file_at file)) as [res0|e] eqn:El;
      cbn [fst snd].
    + split; [|intros msg Hmsg; discriminate Hmsg].
      intros res Hres. inversion Hres; subst res0. split; [reflexivity|].
      destruct (load_Ok_inv pi cos sin _ _ El)
        as [g [r [v' [bounds [Hp [Hr [Hv [Hb ->]]]]]]]].
      cbn [validation read_report view_valid vertex_count].
      split; [exact Hv|].
      destruct (get_report_inv _ r v' Hr) as [v [Hcm [Hvalid _]]].
      destruct (vertices g) as [|v0 vs] eqn:EV; [|cbn; lia].
      rewrite (first_checks_empty g EV) in Hcm. inversion Hcm; subst v.
      rewrite Hv in Hvalid. discriminate Hvalid.
    + split; [intros res Hres; discriminate Hres|].
      intros msg Hmsg. inversion Hmsg; subst msg.
      unfold load in El.
      destruct (load_body pi cos sin (file_at file)) as [res0|e0];
        [discriminate El|].
      exists (exn_str e0). now inversion El.
Qed.

End MainFacts.

(** *** Nothing beyond the bounding box is inside *)






(** *** Vertices without x or y *)




(** *** Entities the parser does not read *)

Section OtherEntities.

Variable pi : Q.
Variables cos sin : Q -> Q.

(** X21.  Entities of any type other than LINE, LWPOLYLINE, POLYLINE,
    3DFACE and CIRCLE are skipped without a message: the vertices, faces
    and edges of a drawing are those of the drawing without these
    entities, and only [entity_count], which counts them too, tells the
    two apart. *)
Theorem other_entities_ignored (doc : DxfDoc) :
  let g := _parse_dxf pi cos sin doc in
  let g' := _parse_dxf pi cos sin
              (mkDxfDoc (layers doc) (filter drawn (modelspace doc))) in
  vertices g = vertices g' /\ faces g = faces g' /\ edges g = edges g' /\
  dict_get String.eqb (metadata g) "entity_count"
  = Some (MInt (List.length (modelspace doc))) /\
  dict_get String.eqb (metadata g') "entity_count"
  = Some (MInt (List.length (filter drawn (modelspace doc)))).
Proof.
  assert (H : forall msp st,
            fold_left (parse_entity pi cos sin) (filter drawn msp) st
            = fold_left (parse_entity pi cos sin) msp st).
  { induction msp as [|e msp IH]; intros st; [reflexivity|].
    destruct e; cbn [filter drawn fold_left]; apply IH. }
  cbv zeta. unfold _parse_dxf. cbn [modelspace layers vertices faces edges].
  rewrite H. repeat split; reflexivity.
Qed.

End OtherEntities.

(* ===================================================================== *)
(** ** The further properties on sample inputs                            *)
(* ===================================================================== *)


(** A closed polyline of three points in an empty drawing: three edges. *)
Lemma polyline_edge_chain_witness :
  let pts := [mkVec3 0 0 0; mkVec3 30 0 0; mkVec3 30 30 0] in
  let st' := parse_entity 0 (fun _ => 1) (fun _ => 0) dxf_init
               (POLYLINE pts true) in
  exists new,
    dxf_edges st' = dxf_edges dxf_init ++ new /\ List.length new = 3%nat.
Proof.
  cbv zeta.
  destruct (polyline_edge_chain 0 (fun _ => 1) (fun _ => 0) dxf_init
              (POLYLINE [mkVec3 0 0 0; mkVec3 30 0 0; mkVec3 30 30 0] true)
              [mkVec3 0 0 0; mkVec3 30 0 0; mkVec3 30 30 0] true
              (or_introl eq_refl))
    as [new [He [_ [Hl _]]]].
  exists new. split; [exact He | exact Hl].
Defined.

(** The bounds of a square of side 30. *)
Lemma bounds_enclose_witness :
  vertices (square 30) <> [] /\
  Forall has_xy (vertices (square 30)) /\
  exists b : Bounds,
    calculate_bounds (square 30) = Ok (Some b) /\
    width b = max_x b - min_x b /\ 0 <= width b.
Proof.
  assert (Hne : vertices (square 30) <> []) by discriminate.
  assert (HF : Forall has_xy (vertices (square 30))).
  { repeat constructor; unfold has_xy; simpl; lia. }
  split; [exact Hne|]. split; [exact HF|].
  destruct (bounds_enclose (square 30) Hne HF)
    as [b [Hb [_ [_ [_ [Hw [Hw0 _]]]]]]].
  exists b. split; [exact Hb|]. split; [exact Hw | exact Hw0].
Defined.






(** An open path of two edges: its two ends are the open vertices. *)
Lemma open_vertices_spec_witness :
  Forall (fun e => List.length e = 2%nat) [[0; 1]; [1; 2]]%nat /\
  Nat.even (List.length (open_vertices [[0; 1]; [1; 2]]%nat)) = true.
Proof.
  assert (HF : Forall (fun e => List.length e = 2%nat) [[0; 1]; [1; 2]]%nat).
  { repeat constructor. }
  split; [exact HF|].
  exact (proj1 (proj2 (proj2 (open_vertices_spec [[0; 1]; [1; 2]]%nat)) HF)).
Defined.

(** A drawing with one closed square: no open vertex. *)
Lemma closed_outlines_have_no_open_vertex_witness :
  Forall closed_entity (modelspace (square_dxf 40)) /\
  open_vertices
    (edges (_parse_dxf 0 (fun _ => 1) (fun _ => 0) (square_dxf 40))) = [].
Proof.
  assert (HF : Forall closed_entity (modelspace (square_dxf 40))).
  { repeat constructor. }
  split; [exact HF|].
  exact (proj1 (closed_outlines_have_no_open_vertex 0 (fun _ => 1)
                  (fun _ => 0) (square_dxf 40) HF)).
Defined.

(** A point of a 40 by 30 rectangle. *)
Lemma rectangle_inside_witness :
  0 < 40 /\ 0 < 30 /\
  _point_in_polygon (GNDValidator_init (rectangle 40 30)) 10 10 = Ok true.
Proof.
  assert (Hw : 0 < 40) by reflexivity.
  assert (Hh : 0 < 30) by reflexivity.
  split; [exact Hw|]. split; [exact Hh|].
  destruct (rectangle_inside 40 30 10 10 Hw Hh) as [b [Hb Hiff]].
  rewrite Hb. f_equal. apply Hiff.
  repeat split; unfold Qle, Qlt; simpl; lia.
Defined.


(** Two runs on the validator of a square of side 20: the size error is
    reported twice and the verdict is the same. *)
Lemma second_run_repeats_messages_witness :
  exists (r1 r2 : Report) (v1 v2 : GNDValidator),
    get_report (GNDValidator_init (square 20)) = Ok (r1, v1) /\
    get_report v1 = Ok (r2, v2) /\
    valid r2 = valid r1.
Proof.
  assert (H : { rv | get_report (GNDValidator_init (square 20)) = Ok rv }).
  { eexists. vm_compute. reflexivity. }
  destruct H as [[r1 v1] H].
  destruct (second_run_repeats_messages _ r1 v1 H) as [r2 [v2 [H2 [Hv _]]]].
  exists r1, r2, v1, v2.
  split; [exact H|]. split; [exact H2 | exact Hv].
Defined.


(** The project path and the script name play no part. *)
Lemma main_outcome_witness :
  let file_at := fun _ : string => dxf_file "gnd.dxf" (square_dxf 40) in
  main 0 (fun _ => 1) (fun _ => 0) file_at
    ["gnd_loader.py"; "gnd.dxf"; "project"]%string
  = main 0 (fun _ => 1) (fun _ => 0) file_at
      [EmptyString; "gnd.dxf"; EmptyString]%string.
Proof.
  cbv zeta.
  exact (proj1 (proj2 (proj2 (proj2
           (main_outcome 0 (fun _ => 1) (fun _ => 0)
              (fun _ => dxf_file "gnd.dxf" (square_dxf 40))
              ["gnd_loader.py"; "gnd.dxf"; "project"]%string)))
           _ _ _ _ eq_refl)).
Defined.



(** A text beside a closed square adds no edge. *)
Lemma other_entities_ignored_witness :
  edges (_parse_dxf 0 (fun _ => 1) (fun _ => 0) (annotated_dxf 40))
  = edges (_parse_dxf 0 (fun _ => 1) (fun _ => 0) (square_dxf 40)).
Proof.
  exact (proj1 (proj2 (proj2 (other_entities_ignored 0 (fun _ => 1)
                                (fun _ => 0) (annotated_dxf 40))))).
Defined.
